(** * Verification of the AsmJit emitter front-end and the AArch64 instruction API

    Shallow embedding of [src/asmjit/core/emitter.h] (BaseEmitter state,
    emitter predicates, transient per-instruction state) and of
    [src/asmjit/arm/a64instapi.cpp] (instruction names, validation stub and
    read/write information). *)

From Stdlib Require Import ZArith NArith String Ascii List Bool Lia.
Import ListNotations.

Open Scope Z_scope.

(** ** Shared scalar types *)

(** [Error] is a [uint32_t] error code; [kErrorOk] is zero. *)
Definition Error := Z.
Definition kErrorOk : Error := 0.
(** [kErrorInvalidInstruction] of asmjit's [ErrorCode] enumeration (globals.h). *)
Definition kErrorInvalidInstruction : Error := 26.

(** [InstId] is a [uint32_t]; instruction ids index the instruction table. *)
Definition InstId := nat.
Definition kIdNone : InstId := 0%nat.

(** [InstOptions] is a [uint32_t] bit set. *)
Definition InstOptions := Z.
Definition InstOptions_kNone : InstOptions := 0.
Definition InstOptions_kReserved : InstOptions := 1.

(** [RegOnly] (operand.h): a register signature and a register id.
    [isReg] tests the operand type field (bits 0..2) against [OperandType::kReg]. *)
Record RegOnly := mkRegOnly { _signature : Z; _id : Z }.

Definition OperandType_kReg : Z := 1.
Definition RegOnly_isReg (r : RegOnly) : bool :=
  Z.eqb (Z.land (_signature r) 7) OperandType_kReg.
Definition RegOnly_reset (r : RegOnly) : RegOnly := mkRegOnly 0 0.
Definition RegOnly_init (r other : RegOnly) : RegOnly :=
  mkRegOnly (_signature other) (_id other).

(** Operands as far as the code under study inspects them: registers (with the
    vector element index of [a64::Vec]), memory operands (base, index,
    pre/post-index addressing), immediates and labels. *)
Inductive Operand :=
| OpNone
| OpReg (signature regId : Z) (hasElementIndex : bool) (elementType elementIndex : nat)
| OpMem (hasBase hasIndex isPreOrPost : bool)
| OpImm (value : Z)
| OpLabel (labelId : Z).

Definition Operand_isReg (o : Operand) : bool :=
  match o with OpReg _ _ _ _ _ => true | _ => false end.
Definition Operand_isRegOrMem (o : Operand) : bool :=
  match o with OpReg _ _ _ _ _ | OpMem _ _ _ => true | _ => false end.

(** [BaseInst]: instruction id, options and extra register. *)
Record BaseInst := mkBaseInst {
  inst_id : InstId;
  inst_options : InstOptions;
  inst_extraReg : RegOnly
}.

(** ** BaseEmitter (core/emitter.h) *)
Module Emitter.

(** [EmitterType] is an [enum class : uint8_t]. *)
Inductive EmitterType := kNone | kAssembler | kBuilder | kCompiler.

Definition EmitterType_value (t : EmitterType) : Z :=
  match t with kNone => 0 | kAssembler => 1 | kBuilder => 2 | kCompiler => 3 end.

(** The members of [BaseEmitter]. Pointers ([_code], [_logger],
    [_errorHandler]) are optional handles; the inline comment is a
    nullable C string. [_environment], [_gpSignature], [_funcs] and the
    attached-emitter links are not read by anything modelled here. *)
Record BaseEmitter := mkBaseEmitter {
  _emitterType : EmitterType;
  _emitterFlags : Z;
  _instructionAlignment : Z;
  _validationFlags : Z;
  _diagnosticOptions : Z;
  _encodingOptions : Z;
  _forcedInstOptions : InstOptions;
  _archMask : Z;
  _code : option N;
  _logger : option N;
  _errorHandler : option N;
  _privateData : Z;
  _instOptions : InstOptions;
  _extraReg : RegOnly;
  _inlineComment : option string
}.

Definition isAssembler (e : BaseEmitter) : bool :=
  Z.eqb (EmitterType_value (_emitterType e)) (EmitterType_value kAssembler).
Definition isBuilder (e : BaseEmitter) : bool :=
  Z.leb (EmitterType_value kBuilder) (EmitterType_value (_emitterType e)).
Definition isCompiler (e : BaseEmitter) : bool :=
  Z.eqb (EmitterType_value (_emitterType e)) (EmitterType_value kCompiler).

(** Setters of the transient group. *)
Definition setInstOptions (e : BaseEmitter) (options : InstOptions) : BaseEmitter :=
  {| _emitterType := _emitterType e; _emitterFlags := _emitterFlags e;
     _instructionAlignment := _instructionAlignment e;
     _validationFlags := _validationFlags e; _diagnosticOptions := _diagnosticOptions e;
     _encodingOptions := _encodingOptions e; _forcedInstOptions := _forcedInstOptions e;
     _archMask := _archMask e; _code := _code e; _logger := _logger e;
     _errorHandler := _errorHandler e; _privateData := _privateData e;
     _instOptions := options; _extraReg := _extraReg e;
     _inlineComment := _inlineComment e |}.

Definition _setExtraRegField (e : BaseEmitter) (r : RegOnly) : BaseEmitter :=
  {| _emitterType := _emitterType e; _emitterFlags := _emitterFlags e;
     _instructionAlignment := _instructionAlignment e;
     _validationFlags := _validationFlags e; _diagnosticOptions := _diagnosticOptions e;
     _encodingOptions := _encodingOptions e; _forcedInstOptions := _forcedInstOptions e;
     _archMask := _archMask e; _code := _code e; _logger := _logger e;
     _errorHandler := _errorHandler e; _privateData := _privateData e;
     _instOptions := _instOptions e; _extraReg := r;
     _inlineComment := _inlineComment e |}.

Definition setInlineComment (e : BaseEmitter) (s : option string) : BaseEmitter :=
  {| _emitterType := _emitterType e; _emitterFlags := _emitterFlags e;
     _instructionAlignment := _instructionAlignment e;
     _validationFlags := _validationFlags e; _diagnosticOptions := _diagnosticOptions e;
     _encodingOptions := _encodingOptions e; _forcedInstOptions := _forcedInstOptions e;
     _archMask := _archMask e; _code := _code e; _logger := _logger e;
     _errorHandler := _errorHandler e; _privateData := _privateData e;
     _instOptions := _instOptions e; _extraReg := _extraReg e;
     _inlineComment := s |}.

(** [setExtraReg(reg) { _extraReg.init(reg); }] *)
Definition setExtraReg (e : BaseEmitter) (reg : RegOnly) : BaseEmitter :=
  _setExtraRegField e (RegOnly_init (_extraReg e) reg).

Definition resetInstOptions (e : BaseEmitter) : BaseEmitter :=
  setInstOptions e InstOptions_kNone.
Definition resetExtraReg (e : BaseEmitter) : BaseEmitter :=
  _setExtraRegField e (RegOnly_reset (_extraReg e)).
Definition resetInlineComment (e : BaseEmitter) : BaseEmitter :=
  setInlineComment e None.

(** [resetState()]: options, extra register, inline comment, in this order. *)
Definition resetState (e : BaseEmitter) : BaseEmitter :=
  resetInlineComment (resetExtraReg (resetInstOptions e)).

(** [BaseEmitter::State]. *)
Record State := mkState {
  state_options : InstOptions;
  state_extraReg : RegOnly;
  state_comment : option string
}.

(** [_grabState()]: returns the captured state and the emitter after
    [resetState()]. *)
Definition _grabState (e : BaseEmitter) : State * BaseEmitter :=
  let s := mkState (Z.lor (_instOptions e) (_forcedInstOptions e))
                   (_extraReg e) (_inlineComment e) in
  (s, resetState e).

(** The transient state is [Idle]. *)
Definition transient_idle (e : BaseEmitter) : Prop :=
  _instOptions e = InstOptions_kNone /\ RegOnly_isReg (_extraReg e) = false /\
  _inlineComment e = None.

Section EmitInst.
(** The virtual [_emitOpArray] of the concrete emitter. *)
Variable _emitOpArray : BaseEmitter -> InstId -> list Operand -> nat -> Error * BaseEmitter.

(** [emitInst(inst, operands, opCount)]. *)
Definition emitInst (e : BaseEmitter) (inst : BaseInst) (operands : list Operand)
    (opCount : nat) : Error * BaseEmitter :=
  let e1 := setInstOptions e (inst_options inst) in
  let e2 := setExtraReg e1 (inst_extraReg inst) in
  _emitOpArray e2 (inst_id inst) operands opCount.
End EmitInst.

(** *** Error reporting *)

(** One call of [ErrorHandler::handleError(err, message, origin)]. *)
Record HandlerCall := mkHandlerCall {
  call_handler : N;
  call_err : Error;
  call_message : option string
}.

(** Modelled from the spec: [BaseEmitter::_reportError] (emitter.cpp, not
    under src/), per the reportError contract: [err == Ok] is forbidden
    (debug assertion, [None] here); otherwise, if an error handler is
    installed, it is called with [(err, msg, emitter)], and the original [err]
    is returned. The handler calls are returned as a trace. *)
Definition _reportError (e : BaseEmitter) (err : Error) (message : option string)
    : option (Error * list HandlerCall) :=
  if Z.eqb err kErrorOk then None
  else match _errorHandler e with
       | Some h => Some (err, [mkHandlerCall h err message])
       | None => Some (err, [])
       end.

(** [reportError(err, message)]: [Error e = _reportError(err, message);
    ASMJIT_ASSUME(e == err); ASMJIT_ASSUME(e != kErrorOk); return e;].
    A violated [ASMJIT_ASSUME] is undefined behaviour ([None]). *)
Definition reportError (e : BaseEmitter) (err : Error) (message : option string)
    : option (Error * list HandlerCall) :=
  match _reportError e err message with
  | None => None
  | Some (r, calls) =>
      if Z.eqb r err && negb (Z.eqb r kErrorOk) then Some (r, calls) else None
  end.

(** *** The emit path *)

Definition DiagnosticOptions_kValidateAssembler : Z := 1.
Definition DiagnosticOptions_kValidateIntermediate : Z := 2.

Section EmitPath.
(** The architecture-specific validation and the subtype's [_emit] hook. *)
Variable validate : State -> InstId -> list Operand -> Error.
Variable dispatch : BaseEmitter -> State -> InstId -> list Operand -> Error * BaseEmitter.

Definition validation_requested (e : BaseEmitter) : bool :=
  negb (Z.eqb (Z.land (_diagnosticOptions e)
                      (Z.lor DiagnosticOptions_kValidateAssembler
                             DiagnosticOptions_kValidateIntermediate)) 0).

(** Modelled from the spec: the emit path ([_emitI] / [_emitOpArray] of
    emitter.cpp and the backends' [_emit], not under src/), per 4.2:
    the pending state is grabbed with [_grabState] (options merged with the
    forced options), validation runs when a diagnostic option demands it and
    on failure reports [InvalidInstruction] with [reportError], clears the
    transient state and returns the reported error; otherwise the subtype's
    [_emit] is dispatched and the transient state is cleared unconditionally
    afterwards. The result is the error, the calls of the error handler made
    by [reportError] and the emitter. *)
Definition emit (e : BaseEmitter) (instId : InstId) (operands : list Operand)
    : Error * list HandlerCall * BaseEmitter :=
  let (s, e1) := _grabState e in
  if validation_requested e1 && negb (Z.eqb (validate s instId operands) kErrorOk)
  then match reportError e1 kErrorInvalidInstruction None with
       | Some (r, calls) => (r, calls, resetState e1)
       (* unreachable: [kErrorInvalidInstruction] is not [kErrorOk] *)
       | None => (kErrorInvalidInstruction, [], resetState e1)
       end
  else let (err, e2) := dispatch e1 s instId operands in
       (err, [], resetState e2).
End EmitPath.

(** *** Emitter flags, encoding options and the other inline accessors *)

(** [EmitterFlags] ([enum class : uint8_t]). *)
Definition EmitterFlags_kNone : Z := 0.
Definition EmitterFlags_kAttached : Z := 1.
Definition EmitterFlags_kLogComments : Z := 8.
Definition EmitterFlags_kOwnLogger : Z := 16.
Definition EmitterFlags_kOwnErrorHandler : Z := 32.
Definition EmitterFlags_kFinalized : Z := 64.
Definition EmitterFlags_kDestroyed : Z := 128.

(** [EncodingOptions] ([enum class : uint32_t]). *)
Definition EncodingOptions_kNone : Z := 0.
Definition EncodingOptions_kOptimizeForSize : Z := 1.
Definition EncodingOptions_kOptimizedAlign : Z := 2.
Definition EncodingOptions_kPredictedJumps : Z := 16.

(** [Support::test(a, b)] (support.h): [(a & b) != 0]. *)
Definition Support_test (a b : Z) : bool := negb (Z.eqb (Z.land a b) 0).

(** [operator~] of [ASMJIT_DEFINE_ENUM_FLAGS] on an enumeration whose
    underlying type has [w] bits: the complement cast back to [w] bits. *)
Definition enum_not (w : Z) (a : Z) : Z := Z.land (Z.lnot a) (Z.ones w).

Definition _setEmitterFlagsField (e : BaseEmitter) (f : Z) : BaseEmitter :=
  {| _emitterType := _emitterType e; _emitterFlags := f;
     _instructionAlignment := _instructionAlignment e;
     _validationFlags := _validationFlags e; _diagnosticOptions := _diagnosticOptions e;
     _encodingOptions := _encodingOptions e; _forcedInstOptions := _forcedInstOptions e;
     _archMask := _archMask e; _code := _code e; _logger := _logger e;
     _errorHandler := _errorHandler e; _privateData := _privateData e;
     _instOptions := _instOptions e; _extraReg := _extraReg e;
     _inlineComment := _inlineComment e |}.

Definition _setEncodingOptionsField (e : BaseEmitter) (o : Z) : BaseEmitter :=
  {| _emitterType := _emitterType e; _emitterFlags := _emitterFlags e;
     _instructionAlignment := _instructionAlignment e;
     _validationFlags := _validationFlags e; _diagnosticOptions := _diagnosticOptions e;
     _encodingOptions := o; _forcedInstOptions := _forcedInstOptions e;
     _archMask := _archMask e; _code := _code e; _logger := _logger e;
     _errorHandler := _errorHandler e; _privateData := _privateData e;
     _instOptions := _instOptions e; _extraReg := _extraReg e;
     _inlineComment := _inlineComment e |}.

(** [hasEmitterFlag(flag)], [isFinalized()], [isDestroyed()]. *)
Definition hasEmitterFlag (e : BaseEmitter) (flag : Z) : bool :=
  Support_test (_emitterFlags e) flag.
Definition isFinalized (e : BaseEmitter) : bool := hasEmitterFlag e EmitterFlags_kFinalized.
Definition isDestroyed (e : BaseEmitter) : bool := hasEmitterFlag e EmitterFlags_kDestroyed.

(** [_addEmitterFlags(flags) { _emitterFlags |= flags; }] *)
Definition _addEmitterFlags (e : BaseEmitter) (flags : Z) : BaseEmitter :=
  _setEmitterFlagsField e (Z.lor (_emitterFlags e) flags).

(** [_clearEmitterFlags(flags) { _emitterFlags &= _emitterFlags & ~flags; }] *)
Definition _clearEmitterFlags (e : BaseEmitter) (flags : Z) : BaseEmitter :=
  _setEmitterFlagsField e
    (Z.land (_emitterFlags e) (Z.land (_emitterFlags e) (enum_not 8 flags))).

(** [hasEncodingOption], [addEncodingOptions], [clearEncodingOptions]. *)
Definition hasEncodingOption (e : BaseEmitter) (option : Z) : bool :=
  Support_test (_encodingOptions e) option.
Definition addEncodingOptions (e : BaseEmitter) (options : Z) : BaseEmitter :=
  _setEncodingOptionsField e (Z.lor (_encodingOptions e) options).
Definition clearEncodingOptions (e : BaseEmitter) (options : Z) : BaseEmitter :=
  _setEncodingOptionsField e (Z.land (_encodingOptions e) (enum_not 32 options)).

(** [isInitialized()], [hasLogger()], [hasErrorHandler()]: pointer tests. *)
Definition isInitialized (e : BaseEmitter) : bool :=
  match _code e with Some _ => true | None => false end.
Definition hasLogger (e : BaseEmitter) : bool :=
  match _logger e with Some _ => true | None => false end.
Definition hasErrorHandler (e : BaseEmitter) : bool :=
  match _errorHandler e with Some _ => true | None => false end.

(** [addInstOptions(options) { _instOptions |= options; }] *)
Definition addInstOptions (e : BaseEmitter) (options : InstOptions) : BaseEmitter :=
  setInstOptions e (Z.lor (_instOptions e) options).

(** [hasExtraReg() { return _extraReg.isReg(); }] *)
Definition hasExtraReg (e : BaseEmitter) : bool := RegOnly_isReg (_extraReg e).

(** The members of a newly constructed emitter: the default member
    initializers of [BaseEmitter], with [_emitterType] taken from the
    constructor argument ([RegOnly _extraReg {}] is zero-initialized). *)
Definition BaseEmitter_new (emitterType : EmitterType) : BaseEmitter :=
  {| _emitterType := emitterType; _emitterFlags := EmitterFlags_kNone;
     _instructionAlignment := 0; _validationFlags := 0; _diagnosticOptions := 0;
     _encodingOptions := EncodingOptions_kNone; _forcedInstOptions := InstOptions_kReserved;
     _archMask := 0; _code := None; _logger := None; _errorHandler := None;
     _privateData := 0; _instOptions := InstOptions_kNone; _extraReg := mkRegOnly 0 0;
     _inlineComment := None |}.

End Emitter.

(** ** AArch64 instruction API (arm/a64instapi.cpp) *)
Module A64InstApi.

(** [Arch] is an [enum class : uint8_t]; the functions below ignore it. *)
Definition Arch := N.
Definition SIZE_MAX : N := 2 ^ 64 - 1.

(** *** C strings *)

(** The text of a C string: the characters before the first NUL. *)
Fixpoint cstr (s : string) : string :=
  match s with
  | EmptyString => EmptyString
  | String c s' => if Ascii.eqb c Ascii.zero then EmptyString else String c (cstr s')
  end.

Definition strlen (s : string) : N := N.of_nat (String.length (cstr s)).

(** [uint8_t(p[i])]; past the end of the characters, the terminating NUL. *)
Definition byte_at (s : string) (i : nat) : Z :=
  match String.get i s with
  | Some c => Z.of_N (N_of_ascii c)
  | None => 0
  end.

(** [uint32_t(c)] of a (signed) [char] holding byte [b]. *)
Definition char_to_u32 (b : Z) : Z :=
  if b <? 128 then b else b - 256 + 2 ^ 32.

(** [Support::cmpInstName(a, b, size)]: compares the first [size] bytes and
    then returns [uint8_t(a[size])]. *)
Fixpoint cmp_from (a b : string) (i n : nat) : Z :=
  match n with
  | O => byte_at a i
  | S n' =>
      let c := byte_at a i - byte_at b i in
      if Z.eqb c 0 then cmp_from a b (S i) n' else c
  end.

Definition cmpInstName (a b : string) (size : nat) : Z := cmp_from a b 0 size.

(** *** The instruction database (a64instdb.cpp, generated) *)

(** [InstDB::InstInfo]: [info_nameData] is the text of [_nameData] from
    [_nameDataIndex] on, i.e. what the pointer [_nameData + _nameDataIndex]
    reads: the entry's NUL-terminated name followed by the rest of the name
    data. *)
Record InstInfo := mkInstInfo {
  info_nameData : string;
  _rwInfoIndex : nat;
  _flags : Z
}.

Definition InstInfo_default : InstInfo := mkInstInfo EmptyString 0 0.

(** [InstDB::InstNameIndex]: the table range [start, end) of the names
    beginning with one letter; [start == 0] means there is none. *)
Record InstNameIndex := mkInstNameIndex { index_start : nat; index_end : nat }.

Definition kInstFlagConsecutive : Z := 32.

(** *** Read/write information (inst.h) *)

Definition OpRWFlags_kNone : Z := 0.
Definition OpRWFlags_kRead : Z := 1.
Definition OpRWFlags_kWrite : Z := 2.
Definition OpRWFlags_kRW : Z := 3.
Definition OpRWFlags_kConsecutive : Z := 8.
Definition OpRWFlags_kZExt : Z := 16.
Definition OpRWFlags_kMemBaseRead : Z := 4096.
Definition OpRWFlags_kMemIndexRead : Z := 16384.
Definition OpRWFlags_kMemIndexWrite : Z := 32768.

Definition BaseReg_kIdBad : Z := 255.
Definition u64_max : Z := 2 ^ 64 - 1.
Definition kMaxOpCount : nat := 6.

Record OpRWInfo := mkOpRWInfo {
  _opFlags : Z;
  _physId : Z;
  _rmSize : Z;
  _consecutiveLeadCount : Z;
  _reserved : Z;
  _readByteMask : Z;
  _writeByteMask : Z;
  _extendByteMask : Z
}.

(** [OpRWInfo::reset()]: all members zero. *)
Definition OpRWInfo_reset : OpRWInfo := mkOpRWInfo 0 0 0 0 0 0 0 0.

Definition OpRWInfo_isRead (op : OpRWInfo) : bool :=
  negb (Z.eqb (Z.land (_opFlags op) OpRWFlags_kRead) 0).
Definition OpRWInfo_isWrite (op : OpRWInfo) : bool :=
  negb (Z.eqb (Z.land (_opFlags op) OpRWFlags_kWrite) 0).

(** [OpRWInfo::hasOpFlag(flag)]: [Support::test(_opFlags, flag)]. *)
Definition OpRWInfo_hasOpFlag (op : OpRWInfo) (flag : Z) : bool :=
  negb (Z.eqb (Z.land (_opFlags op) flag) 0).

Definition addOpFlags (op : OpRWInfo) (f : Z) : OpRWInfo :=
  mkOpRWInfo (Z.lor (_opFlags op) f) (_physId op) (_rmSize op)
             (_consecutiveLeadCount op) (_reserved op) (_readByteMask op)
             (_writeByteMask op) (_extendByteMask op).

Definition setByteMasks (op : OpRWInfo) (r w : Z) : OpRWInfo :=
  mkOpRWInfo (_opFlags op) (_physId op) (_rmSize op) (_consecutiveLeadCount op)
             (_reserved op) r w (_extendByteMask op).

Definition setConsecutiveLeadCount (op : OpRWInfo) (n : Z) : OpRWInfo :=
  mkOpRWInfo (_opFlags op) (_physId op) (_rmSize op) n (_reserved op)
             (_readByteMask op) (_writeByteMask op) (_extendByteMask op).

Record InstRWInfo := mkInstRWInfo {
  _instFlags : Z;
  _readFlags : Z;
  _writeFlags : Z;
  _opCount : Z;
  _rmFeature : Z;
  _extraReg : OpRWInfo;
  _operands : list OpRWInfo   (* Globals::kMaxOpCount entries *)
}.

(** [instRWInfoData]: one row of six [OpRWFlags] per [kRWI_*] index. *)
Definition instRWInfoData : list (list Z) :=
  let R := OpRWFlags_kRead in
  let W := OpRWFlags_kWrite in
  let X := OpRWFlags_kRW in
  [ [R; R; R; R; R; R];   (* kRWI_R *)
    [R; W; R; R; R; R];   (* kRWI_RW *)
    [R; X; R; R; R; R];   (* kRWI_RX *)
    [R; R; W; R; R; R];   (* kRWI_RRW *)
    [R; W; X; R; R; R];   (* kRWI_RWX *)
    [W; R; R; R; R; R];   (* kRWI_W *)
    [W; R; W; R; R; R];   (* kRWI_WRW *)
    [W; R; X; R; R; R];   (* kRWI_WRX *)
    [W; R; R; W; R; R];   (* kRWI_WRRW *)
    [W; R; R; X; R; R];   (* kRWI_WRRX *)
    [W; W; R; R; R; R];   (* kRWI_WW *)
    [X; R; R; R; R; R];   (* kRWI_X *)
    [X; R; X; R; R; R];   (* kRWI_XRX *)
    [X; X; R; R; X; R];   (* kRWI_XXRRX *)
    [W; R; R; R; R; R];   (* kRWI_LDn *)
    [R; W; R; R; R; R];   (* kRWI_STn *)
    [R; R; R; R; R; R] ]. (* kRWI_TODO *)

Definition elementTypeSize : list Z := [0; 1; 2; 4; 8; 4; 4; 0].

(** [Support::lsbMask<uint32_t>(n)]. *)
Definition lsbMask32 (n : Z) : Z :=
  if Z.eqb n 0 then 0 else Z.shiftr (2 ^ 32 - 1) (32 - n).

(** The members both loops of [queryRWInfo] set on a register or memory
    operand; [_consecutiveLeadCount] keeps its previous value. *)
Definition rw_common (op : OpRWInfo) (rwFlags : Z) : OpRWInfo :=
  let f := Z.land rwFlags (Z.lnot OpRWFlags_kZExt) in
  let op1 := mkOpRWInfo f BaseReg_kIdBad 0 (_consecutiveLeadCount op) 0
                        (_readByteMask op) (_writeByteMask op) (_extendByteMask op) in
  let r := if OpRWInfo_isRead op1 then u64_max else 0 in
  let w := if OpRWInfo_isWrite op1 then u64_max else 0 in
  mkOpRWInfo f BaseReg_kIdBad 0 (_consecutiveLeadCount op) 0 r w 0.

(** The memory-operand flags of both loops. *)
Definition rw_mem (op : OpRWInfo) (hasBase hasIndex isPreOrPost : bool) : OpRWInfo :=
  let op1 := if hasBase then addOpFlags op OpRWFlags_kMemBaseRead else op in
  if hasIndex
  then addOpFlags (addOpFlags op1 OpRWFlags_kMemIndexRead)
                  (if isPreOrPost then OpRWFlags_kMemIndexWrite else OpRWFlags_kNone)
  else op1.

(** Loop body of the general case, operand [i]. *)
Definition rw_body_default (rw : list Z) (i : nat) (op : OpRWInfo) (src : Operand)
    : OpRWInfo :=
  if negb (Operand_isRegOrMem src) then OpRWInfo_reset
  else
    let op1 := rw_common op (nth i rw 0) in
    match src with
    | OpReg _ _ hasElementIndex elementType elementIndex =>
        if hasElementIndex then
          let elementSize := nth elementType elementTypeSize 0 in
          let accessMask :=
            Z.land (Z.shiftl (lsbMask32 elementSize) (Z.of_nat elementIndex * elementSize))
                   u64_max in
          setByteMasks op1 (Z.land (_readByteMask op1) accessMask)
                           (Z.land (_writeByteMask op1) accessMask)
        else op1
    | OpMem hasBase hasIndex isPreOrPost => rw_mem op1 hasBase hasIndex isPreOrPost
    | _ => op1
    end.

(** Loop body of the consecutive-registers case, operand [i]. *)
Definition rw_body_consecutive (rw : list Z) (opCount i : nat) (op : OpRWInfo)
    (src : Operand) : OpRWInfo :=
  if negb (Operand_isRegOrMem src) then OpRWInfo_reset
  else
    let rwFlags := if Nat.ltb i (opCount - 1) then nth 0 rw 0 else nth 1 rw 0 in
    let op1 := rw_common op rwFlags in
    match src with
    | OpReg _ _ _ _ _ =>
        if Nat.eqb i 0
        then setConsecutiveLeadCount op1 (Z.of_nat (opCount - 1) mod 256)
        else addOpFlags op1 OpRWFlags_kConsecutive
    | OpMem hasBase hasIndex isPreOrPost => rw_mem op1 hasBase hasIndex isPreOrPost
    | _ => op1
    end.

Fixpoint replace_nth {A} (i : nat) (x : A) (l : list A) : list A :=
  match l, i with
  | [], _ => []
  | _ :: l', O => x :: l'
  | y :: l', S i' => y :: replace_nth i' x l'
  end.

(** [for (i = start; i < start + n; i++) { OpRWInfo& op = out->_operands[i]; ... }].
    An index past the [kMaxOpCount] entries of [_operands] is an
    out-of-bounds write: undefined behaviour, [None]. *)
Fixpoint rw_loop (body : nat -> OpRWInfo -> Operand -> OpRWInfo)
    (operands : list Operand) (i n : nat) (ops : list OpRWInfo)
    : option (list OpRWInfo) :=
  match n with
  | O => Some ops
  | S n' =>
      match nth_error ops i with
      | None => None
      | Some op =>
          rw_loop body operands (S i) n'
                  (replace_nth i (body i op (nth i operands OpNone)) ops)
      end
  end.

Section InstDB.
(** The generated instruction database: [InstDB::_instInfoTable]
    ([_kIdCount] entries, entry 0 is [kIdNone]), [InstDB::instNameIndex]
    (26 entries, one per letter) and [InstDB::kMaxNameSize]. *)
Variable _instInfoTable : list InstInfo.
Variable instNameIndex : list InstNameIndex.
Variable kMaxNameSize : N.

Definition _kIdCount : nat := length _instInfoTable.

(** [Inst::isDefinedId(instId)]: the id is below [_kIdCount]. *)
Definition isDefinedId (instId : InstId) : bool := Nat.ltb instId _kIdCount.

Definition infoById (instId : InstId) : InstInfo :=
  nth instId _instInfoTable InstInfo_default.

(** [_nameData + infoById(i)._nameDataIndex]. *)
Definition name_at (i : nat) : string := info_nameData (infoById i).

(** The name of entry [i]: the C string at [name_at i]. *)
Definition inst_name (i : nat) : string := cstr (name_at i).

(** [InstInternal::instIdToString(arch, instId, output)]. *)
Definition instIdToString (arch : Arch) (instId : InstId) (output : string)
    : Error * string :=
  if negb (isDefinedId instId) then (kErrorInvalidInstruction, output)
  else (kErrorOk, String.append output (cstr (name_at instId))).

(** The binary search of [stringToInstId]:
    [for (lim = end - base; lim != 0; lim >>= 1)]. Each iteration lowers
    [lim], so [fuel = lim] iterations suffice and the [fuel = 0] case is the
    loop exit. *)
Fixpoint search_loop (fuel : nat) (s : string) (len : nat) (base lim : nat) : InstId :=
  match fuel with
  | O => kIdNone
  | S fuel' =>
      if Nat.eqb lim 0 then kIdNone
      else
        let cur := (base + Nat.div2 lim)%nat in
        let result := cmpInstName (name_at cur) s len in
        if result <? 0 then search_loop fuel' s len (S cur) (Nat.div2 (lim - 1))
        else if 0 <? result then search_loop fuel' s len base (Nat.div2 lim)
        else cur
  end.

(** [InstInternal::stringToInstId(arch, s, len)]; [s = None] is a null
    pointer. *)
Definition stringToInstId (arch : Arch) (s : option string) (len : N) : InstId :=
  match s with
  | None => kIdNone
  | Some str =>
      let len := if N.eqb len SIZE_MAX then strlen str else len in
      if N.eqb len 0 || N.ltb kMaxNameSize len then kIdNone
      else
        let prefix := (char_to_u32 (byte_at str 0) - 97) mod 2 ^ 32 in
        if 25 <? prefix then kIdNone
        else
          let ix := nth (Z.to_nat prefix) instNameIndex (mkInstNameIndex 0 0) in
          let index := index_start ix in
          if Nat.eqb index 0 then kIdNone
          else
            let lim := (index_end ix - index)%nat in
            search_loop lim str (N.to_nat len) index lim
  end.

(** [InstInternal::validate]: not implemented for AArch64 yet. *)
Definition validate (arch : Arch) (inst : BaseInst) (operands : list Operand)
    (opCount : nat) (validationFlags : Z) : Error :=
  kErrorOk.

(** [InstInternal::queryRWInfo(arch, inst, operands, opCount, out)]; the
    result is the returned error and the new [*out], or [None] where the
    code has undefined behaviour. *)
Definition queryRWInfo (arch : Arch) (inst : BaseInst) (operands : list Operand)
    (opCount : nat) (out : InstRWInfo) : option (Error * InstRWInfo) :=
  let instId := inst_id inst in
  if negb (isDefinedId instId) then Some (kErrorInvalidInstruction, out)
  else
    let instInfo := infoById instId in
    match nth_error instRWInfoData (_rwInfoIndex instInfo) with
    | None => None
    | Some rw =>
        let loop :=
          if negb (Z.eqb (Z.land (_flags instInfo) kInstFlagConsecutive) 0)
             && Nat.ltb 2 opCount
          then rw_loop (rw_body_consecutive rw opCount) operands 0 opCount (_operands out)
          else rw_loop (rw_body_default rw) operands 0 opCount (_operands out) in
        match loop with
        | None => None
        | Some ops =>
            Some (kErrorOk,
                  mkInstRWInfo 0 0 0 (Z.of_nat opCount mod 256) 0 OpRWInfo_reset ops)
        end
    end.
End InstDB.

(** The rest of a string after its first character. *)
Definition stail (s : string) : string :=
  match s with EmptyString => EmptyString | String _ s' => s' end.

(** Well-formedness of the generated database that the binary search of
    [stringToInstId] relies on: every name of a defined id ([>= 1]) has at
    most [kMaxNameSize] characters and starts with a letter ['a'..'z'], its
    id lies in the [instNameIndex] range of that letter, and each letter
    range is strictly sorted by name (so no name occurs twice in it). *)
Definition db_wf (tbl : list InstInfo) (idx : list InstNameIndex) (kMaxNameSize : N)
    : Prop :=
  (kMaxNameSize < SIZE_MAX)%N /\
  (forall id, (1 <= id < length tbl)%nat ->
     let s := inst_name tbl id in
     (N.of_nat (String.length s) <= kMaxNameSize)%N /\
     97 <= byte_at s 0 <= 122 /\
     let ix := nth (Z.to_nat (byte_at s 0 - 97)) idx (mkInstNameIndex 0 0) in
     (1 <= index_start ix <= id)%nat /\ (id < index_end ix <= length tbl)%nat) /\
  (forall p i j, (p < 26)%nat ->
     let ix := nth p idx (mkInstNameIndex 0 0) in
     (index_start ix <= i < j)%nat -> (j < index_end ix)%nat ->
     String.compare (inst_name tbl i) (inst_name tbl j) = Lt).

(** [db_wf] as a boolean check over the finite table. *)
Definition db_wfb (tbl : list InstInfo) (idx : list InstNameIndex) (kMaxNameSize : N)
    : bool :=
  N.ltb kMaxNameSize SIZE_MAX &&
  forallb (fun id =>
    let s := inst_name tbl id in
    let ix := nth (Z.to_nat (byte_at s 0 - 97)) idx (mkInstNameIndex 0 0) in
    N.leb (N.of_nat (String.length s)) kMaxNameSize &&
    Z.leb 97 (byte_at s 0) && Z.leb (byte_at s 0) 122 &&
    Nat.leb 1 (index_start ix) && Nat.leb (index_start ix) id &&
    Nat.ltb id (index_end ix) && Nat.leb (index_end ix) (length tbl))
    (seq 1 (length tbl - 1)) &&
  forallb (fun p =>
    let ix := nth p idx (mkInstNameIndex 0 0) in
    forallb (fun i =>
      forallb (fun j => String.ltb (inst_name tbl i) (inst_name tbl j))
              (seq (S i) (index_end ix - S i)))
      (seq (index_start ix) (index_end ix - index_start ix)))
    (seq 0 26).

(** The read/write index of every table entry addresses [instRWInfoData]. *)
Definition rw_indices_ok (tbl : list InstInfo) : bool :=
  forallb (fun info => Nat.ltb (_rwInfoIndex info) (length instRWInfoData)) tbl.

End A64InstApi.

(** ** A sample of the AArch64 instruction database

    The first entries of the generated tables for the letters [a], [b], [l]
    and [s], with the layout of a64instdb.cpp: entry 0 is [kIdNone], names
    are sorted inside each letter range. *)
Module SampleDB.
Import A64InstApi.

Definition kRWI_RW : nat := 1.
Definition kRWI_W : nat := 5.
Definition kRWI_LDn : nat := 14.
Definition kRWI_STn : nat := 15.
Definition kRWI_TODO : nat := 16.

(** [InstDB::_nameData]: the names in id order, each followed by its NUL;
    [nameData_from names i] is the text from the name of id [i] on. *)
Fixpoint join_names (names : list string) : string :=
  match names with
  | [] => EmptyString
  | n :: names' => String.append n (String Ascii.zero (join_names names'))
  end.

Definition nameData_from (names : list string) (i : nat) : string :=
  join_names (skipn i names).

Definition names : list string :=
  [""; "adc"; "adcs"; "add"; "addg"; "adds"; "b"; "bl"; "ld1"; "st1"]%string.

Definition table : list InstInfo :=
  [ mkInstInfo (nameData_from names 0) kRWI_TODO 0;
    mkInstInfo (nameData_from names 1) kRWI_W 0;
    mkInstInfo (nameData_from names 2) kRWI_W 0;
    mkInstInfo (nameData_from names 3) kRWI_W 0;
    mkInstInfo (nameData_from names 4) kRWI_W 0;
    mkInstInfo (nameData_from names 5) kRWI_W 0;
    mkInstInfo (nameData_from names 6) kRWI_TODO 0;
    mkInstInfo (nameData_from names 7) kRWI_TODO 0;
    mkInstInfo (nameData_from names 8) kRWI_LDn kInstFlagConsecutive;
    mkInstInfo (nameData_from names 9) kRWI_STn kInstFlagConsecutive ].

Definition nameIndex : list InstNameIndex :=
  map (fun p => match p with
                | 0%nat => mkInstNameIndex 1 6
                | 1%nat => mkInstNameIndex 6 8
                | 11%nat => mkInstNameIndex 8 9
                | 18%nat => mkInstNameIndex 9 10
                | _ => mkInstNameIndex 0 0
                end) (seq 0 26).

(** A database whose ids list the base instructions first and the ASIMD
    ones after them, each group sorted by name, with the range of a letter
    running from its first to its last id: the range of 'a' is
    [adc .. adds, b, bl, abs, add, addhn, addp] and that of 'b' is
    [b, bl, abs, add, addhn, addp, bsl]. "add" names both a base and an
    ASIMD instruction. *)
Definition split_names : list string :=
  [""; "adc"; "adcs"; "add"; "addg"; "adds"; "b"; "bl";
   "abs"; "add"; "addhn"; "addp"; "bsl"]%string.

Definition split_table : list InstInfo :=
  map (fun i => mkInstInfo (nameData_from split_names i) kRWI_W 0)
      (seq 0 (length split_names)).

Definition split_nameIndex : list InstNameIndex :=
  map (fun p => match p with
                | 0%nat => mkInstNameIndex 1 12
                | 1%nat => mkInstNameIndex 6 13
                | _ => mkInstNameIndex 0 0
                end) (seq 0 26).

Definition kMaxNameSize : N := 8.

Definition emptyRWInfo : InstRWInfo :=
  mkInstRWInfo 0 0 0 0 0 OpRWInfo_reset (repeat OpRWInfo_reset kMaxOpCount).

(** Operands of [ld1 {v0, v1, v2}, [x0]]. *)
Definition ld1_operands : list Operand :=
  [OpReg 1 0 false 0 0; OpReg 1 1 false 0 0; OpReg 1 2 false 0 0;
   OpMem true false false].

(** [add] and [ld1] as instructions without options or extra register. *)
Definition add_inst : BaseInst := mkBaseInst 3%nat 0 (mkRegOnly 0 0).
Definition ld1_inst : BaseInst := mkBaseInst 8%nat 0 (mkRegOnly 0 0).

(** Operands of [add x0, x1, x2] and of [add x0, x1, #1]. *)
Definition add_reg_operands : list Operand :=
  [OpReg 1 0 false 0 0; OpReg 1 1 false 0 0; OpReg 1 2 false 0 0].
Definition add_imm_operands : list Operand :=
  [OpReg 1 0 false 0 0; OpReg 1 1 false 0 0; OpImm 1].

(** Operands of [ld1 {v0, v1, v2}, [x0], x1] (post-indexed by a register). *)
Definition ld1_post_operands : list Operand :=
  [OpReg 1 0 false 0 0; OpReg 1 1 false 0 0; OpReg 1 2 false 0 0;
   OpMem true true true].

(** Operands of [ld1 {v0.s}[1], [x0]]: element 1 of a 32-bit element type. *)
Definition ld1_lane_operands : list Operand :=
  [OpReg 1 0 true 3 1; OpMem true false false].

(** The [*out] a [queryRWInfo] call leaves. *)
Definition result_out (r : option (Error * InstRWInfo)) : InstRWInfo :=
  match r with Some (_, o) => o | None => emptyRWInfo end.

Definition add_reg_rw : InstRWInfo :=
  result_out (queryRWInfo table 0%N add_inst add_reg_operands 3 emptyRWInfo).
Definition add_imm_rw : InstRWInfo :=
  result_out (queryRWInfo table 0%N add_inst add_imm_operands 3 emptyRWInfo).
Definition ld1_rw : InstRWInfo :=
  result_out (queryRWInfo table 0%N ld1_inst ld1_operands 4 emptyRWInfo).
Definition ld1_post_rw : InstRWInfo :=
  result_out (queryRWInfo table 0%N ld1_inst ld1_post_operands 4 emptyRWInfo).
Definition ld1_lane_rw : InstRWInfo :=
  result_out (queryRWInfo table 0%N ld1_inst ld1_lane_operands 2 emptyRWInfo).

(** An assembler attached to a code holder. *)
Definition attached_emitter : Emitter.BaseEmitter :=
  Emitter._addEmitterFlags (Emitter.BaseEmitter_new Emitter.kAssembler)
                           Emitter.EmitterFlags_kAttached.

End SampleDB.

(** * Properties of the emitter *)
Module EmitterFacts.
Import Emitter.

Lemma resetState_idle (e : BaseEmitter) : transient_idle (resetState e).
Proof. repeat split. Qed.

Lemma resetState_persistent (e : BaseEmitter) :
  _emitterType (resetState e) = _emitterType e /\
  _emitterFlags (resetState e) = _emitterFlags e /\
  _forcedInstOptions (resetState e) = _forcedInstOptions e /\
  _diagnosticOptions (resetState e) = _diagnosticOptions e /\
  _errorHandler (resetState e) = _errorHandler e.
Proof. repeat split. Qed.

(** C1: the transient state (next options, extra register, inline comment)
    is [Idle] after [resetState], after [_grabState], and after every call
    of the emit path, whatever the outcome of validation and of the
    subtype's [_emit]. *)
Theorem transient_state_consumed :
  (forall e, transient_idle (resetState e)) /\
  (forall e, transient_idle (snd (_grabState e))) /\
  (forall validate dispatch e instId operands,
     transient_idle (snd (emit validate dispatch e instId operands))).
Proof.
  split; [exact resetState_idle|].
  split; [intro e; exact (resetState_idle e)|].
  intros validate dispatch e instId operands.
  unfold emit, _grabState.
  destruct (validation_requested (resetState e) && _).
  - destruct (reportError _ _ _) as [[r calls]|]; apply resetState_idle.
  - destruct (dispatch _ _ _ _) as [err e2]. apply resetState_idle.
Qed.

(** C4: [reportError(err, msg)] with [err != Ok] calls the installed error
    handler once with [(err, msg)] and returns exactly [err]; with
    [err == Ok] it is undefined (the debug assertion fires). *)
Theorem reportError_returns_err (e : BaseEmitter) (err : Error) (msg : option string) :
  reportError e err msg =
    if Z.eqb err kErrorOk then None
    else Some (err, match _errorHandler e with
                    | Some h => [mkHandlerCall h err msg]
                    | None => []
                    end).
Proof.
  unfold reportError, _reportError.
  destruct (Z.eqb err kErrorOk) eqn:Hok; [reflexivity|].
  destruct (_errorHandler e); rewrite Z.eqb_refl, Hok; reflexivity.
Qed.

(** C5: the options captured by [_grabState] are
    [_instOptions | _forcedInstOptions]. *)
Theorem grabState_options (e : BaseEmitter) :
  state_options (fst (_grabState e)) = Z.lor (_instOptions e) (_forcedInstOptions e).
Proof. reflexivity. Qed.

(** C6: [emitInst(inst, operands, opCount)] stores [inst.options()] as the
    next options and [inst.extraReg()] as the extra register, leaves every
    other member alone, and returns [_emitOpArray(inst.id(), operands,
    opCount)] called on that emitter. *)
Theorem emitInst_loads_state_then_dispatches
    (_emitOpArray : BaseEmitter -> InstId -> list Operand -> nat -> Error * BaseEmitter)
    (e : BaseEmitter) (inst : BaseInst) (operands : list Operand) (opCount : nat) :
  let e' := setExtraReg (setInstOptions e (inst_options inst)) (inst_extraReg inst) in
  emitInst _emitOpArray e inst operands opCount = _emitOpArray e' (inst_id inst) operands opCount /\
  _instOptions e' = inst_options inst /\
  _extraReg e' = inst_extraReg inst /\
  setExtraReg (setInstOptions e' (_instOptions e)) (_extraReg e) = e.
Proof.
  destruct e as [? ? ? ? ? ? ? ? ? ? ? ? ? [sig rid] ?].
  destruct inst as [iid iopt [isig irid]].
  repeat split.
Qed.

(** C9: [isAssembler] holds exactly for [kAssembler], [isCompiler] exactly
    for [kCompiler], and [isBuilder] for [kBuilder] and [kCompiler]. *)
Theorem emitter_type_predicates (e : BaseEmitter) :
  (isAssembler e = true <-> _emitterType e = kAssembler) /\
  (isCompiler e = true <-> _emitterType e = kCompiler) /\
  (isBuilder e = true <-> _emitterType e = kBuilder \/ _emitterType e = kCompiler).
Proof.
  unfold isAssembler, isCompiler, isBuilder.
  destruct (_emitterType e); simpl; intuition discriminate.
Qed.

(** ** Further properties of the emitter state *)

Lemma land_small_ones (a w : Z) : 0 <= w -> 0 <= a < 2 ^ w -> Z.land a (Z.ones w) = a.
Proof. intros Hw Ha. rewrite Z.land_ones by lia. apply Z.mod_small. lia. Qed.

Lemma clear_bits (a f w : Z) : 0 <= w -> 0 <= a < 2 ^ w ->
  Z.land a (Z.land a (enum_not w f)) = Z.land a (Z.lnot f).
Proof.
  intros Hw Ha. unfold enum_not.
  rewrite Z.land_assoc, Z.land_diag.
  rewrite (Z.land_comm (Z.lnot f) (Z.ones w)), Z.land_assoc, land_small_ones by lia.
  reflexivity.
Qed.

Lemma land_lor_self (a f : Z) : Z.land (Z.lor a f) f = f.
Proof.
  apply Z.bits_inj'. intros n Hn.
  rewrite Z.land_spec, Z.lor_spec. destruct (Z.testbit a n), (Z.testbit f n); reflexivity.
Qed.

Lemma land_land_lnot_self (a f : Z) : Z.land (Z.land a (Z.lnot f)) f = 0.
Proof.
  apply Z.bits_inj'. intros n Hn.
  rewrite !Z.land_spec, Z.lnot_spec, Z.bits_0 by lia.
  destruct (Z.testbit a n), (Z.testbit f n); reflexivity.
Qed.

Lemma disjoint_bit (g f n : Z) : Z.land g f = 0 -> Z.testbit g n && Z.testbit f n = false.
Proof. intros H. rewrite <- Z.land_spec, H. apply Z.bits_0. Qed.



(** Once [_grabState] has consumed the pending state, a second
    [_grabState] without new state captures only the forced options, no
    extra register and no comment, and leaves the emitter unchanged. *)
Theorem grabState_twice (e : BaseEmitter) :
  let (s1, e1) := _grabState e in
  let (s2, e2) := _grabState e1 in
  s1 = mkState (Z.lor (_instOptions e) (_forcedInstOptions e)) (_extraReg e)
               (_inlineComment e) /\
  s2 = mkState (_forcedInstOptions e) (mkRegOnly 0 0) None /\
  e2 = e1.
Proof. destruct e. repeat split. Qed.

(** [setExtraReg(r)] stores [r] itself ([RegOnly::init] copies the
    signature and the id), so [hasExtraReg()] is then [r.isReg()];
    after [resetExtraReg()] there is no extra register, and a later
    [setExtraReg] gives the same emitter as without the reset. *)
Theorem extraReg_set_reset (e : BaseEmitter) (r : RegOnly) :
  _extraReg (setExtraReg e r) = r /\
  hasExtraReg (setExtraReg e r) = RegOnly_isReg r /\
  hasExtraReg (resetExtraReg e) = false /\
  setExtraReg (resetExtraReg e) r = setExtraReg e r.
Proof. destruct e, r. repeat split. Qed.

(** [emitInst] overrides the pending options and extra register: options
    added with [addInstOptions] and an extra register set with
    [setExtraReg] before [emitInst] have no effect on the call, and the
    state the backend grabs is the instruction's options merged with the
    forced options, the instruction's extra register and the pending
    inline comment. *)
Theorem emitInst_overrides_pending_state
    (_emitOpArray : BaseEmitter -> InstId -> list Operand -> nat -> Error * BaseEmitter)
    (e : BaseEmitter) (a : InstOptions) (r : RegOnly) (inst : BaseInst)
    (operands : list Operand) (opCount : nat) :
  emitInst _emitOpArray (setExtraReg (addInstOptions e a) r) inst operands opCount =
    emitInst _emitOpArray e inst operands opCount /\
  exists e', emitInst _emitOpArray e inst operands opCount =
               _emitOpArray e' (inst_id inst) operands opCount /\
             fst (_grabState e') =
               mkState (Z.lor (inst_options inst) (_forcedInstOptions e))
                       (inst_extraReg inst) (_inlineComment e).
Proof.
  destruct e, r, inst as [iid iopt [isig irid]]. split; [reflexivity|].
  eexists. split; reflexivity.
Qed.


End EmitterFacts.

(** * Properties of the AArch64 instruction API *)
Module A64InstApiFacts.
Import A64InstApi.

(** ** Bytes and the first-letter test *)

Lemma byte_at_range (s : string) (i : nat) : 0 <= byte_at s i < 256.
Proof.
  unfold byte_at. destruct (String.get i s) as [c|]; [|lia].
  pose proof (N_ascii_bounded c). lia.
Qed.

(** The wrapped [uint32_t(s[0]) - 'a'] is at most [25] exactly for the
    bytes ['a'..'z']. *)
Lemma prefix_small_iff (b : Z) :
  0 <= b < 256 ->
  ((char_to_u32 b - 97) mod 2 ^ 32 <= 25 <-> 97 <= b <= 122).
Proof.
  intros Hb. unfold char_to_u32.
  destruct (b <? 128) eqn:H128; [apply Z.ltb_lt in H128 | apply Z.ltb_ge in H128].
  - destruct (Z.leb_spec 97 b).
    + rewrite Z.mod_small by lia. lia.
    + replace ((b - 97) mod 2 ^ 32) with (b - 97 + 2 ^ 32).
      * lia.
      * apply Z.mod_unique with (-1); lia.
  - rewrite Z.mod_small by lia. lia.
Qed.

(** C3: the AArch64 [validate] accepts every instruction. *)
Theorem validate_always_ok (arch : Arch) (inst : BaseInst) (operands : list Operand)
    (opCount : nat) (validationFlags : Z) :
  validate arch inst operands opCount validationFlags = kErrorOk.
Proof. reflexivity. Qed.

(** C8: [stringToInstId] returns [kIdNone] for a null string, for an
    effective length ([strlen(s)] when [len == SIZE_MAX]) of zero or above
    [kMaxNameSize], and for a first character outside ['a'..'z']. *)
Theorem stringToInstId_rejects
    (tbl : list InstInfo) (idx : list InstNameIndex) (kMaxNameSize : N)
    (arch : Arch) (s : option string) (len : N) :
  (s = None \/
   exists str, s = Some str /\
     let eff := if N.eqb len SIZE_MAX then strlen str else len in
     (eff = 0%N \/ (kMaxNameSize < eff)%N \/ ~ (97 <= byte_at str 0 <= 122))) ->
  stringToInstId tbl idx kMaxNameSize arch s len = kIdNone.
Proof.
  intros [-> | [str [-> Hrej]]]; [reflexivity|].
  unfold stringToInstId.
  set (eff := if N.eqb len SIZE_MAX then strlen str else len) in *.
  destruct Hrej as [H0 | [Hbig | Hletter]].
  - rewrite H0. reflexivity.
  - apply N.ltb_lt in Hbig. rewrite Hbig, orb_true_r. reflexivity.
  - destruct (N.eqb eff 0 || N.ltb kMaxNameSize eff); [reflexivity|].
    pose proof (byte_at_range str 0) as Hr.
    destruct (25 <? (char_to_u32 (byte_at str 0) - 97) mod 2 ^ 32) eqn:Hp;
      [reflexivity|].
    apply Z.ltb_ge in Hp. apply prefix_small_iff in Hp; [contradiction | exact Hr].
Qed.

(** ** [cmpInstName] agrees with the lexicographic order of names *)

Lemma byte_at_S (s : string) (i : nat) : byte_at s (S i) = byte_at (stail s) i.
Proof. destruct s; reflexivity. Qed.

Lemma cmp_from_shift (a b : string) (i n : nat) :
  cmp_from a b (S i) n = cmp_from (stail a) (stail b) i n.
Proof.
  revert i. induction n as [|n IH]; intro i; cbn [cmp_from].
  - apply byte_at_S.
  - rewrite !byte_at_S, IH. reflexivity.
Qed.

Lemma cstr_cons (c : ascii) (s : string) :
  cstr (String c s) = String c s -> c <> Ascii.zero /\ cstr s = s.
Proof.
  cbn [cstr]. destruct (Ascii.eqb c Ascii.zero) eqn:Hc; [discriminate|].
  intro Heq. injection Heq as Heq. split; [apply Ascii.eqb_neq; exact Hc | exact Heq].
Qed.

Lemma N_of_ascii_pos (c : ascii) : c <> Ascii.zero -> (0 < N_of_ascii c)%N.
Proof.
  intros Hc. destruct (N.eq_dec (N_of_ascii c) 0) as [H|H]; [|lia].
  exfalso. apply Hc. rewrite <- (ascii_N_embedding c), H. reflexivity.
Qed.

(** For a C string [b], the sign of [cmpInstName(a, b, strlen(b))] is the
    lexicographic comparison of the name at [a] (its C string) with [b]:
    the comparison stops at the first difference, at the latest at the NUL
    ending that name, so the name data after it is never decisive. *)
Lemma cmpInstName_compare (a b : string) :
  cstr b = b ->
  Z.compare (cmpInstName a b (String.length b)) 0 = String.compare (cstr a) b.
Proof.
  unfold cmpInstName. revert a.
  induction b as [|d b IH]; intros a Hb.
  - destruct a as [|c a]; [reflexivity|].
    cbn [String.length cmp_from cstr]. unfold byte_at. cbn [String.get].
    destruct (Ascii.eqb c Ascii.zero) eqn:Hc.
    + apply Ascii.eqb_eq in Hc. subst c. reflexivity.
    + apply Ascii.eqb_neq in Hc. pose proof (N_of_ascii_pos c Hc).
      cbn [String.compare]. apply Z.compare_gt_iff. lia.
  - apply cstr_cons in Hb as [Hd Hb']. pose proof (N_of_ascii_pos d Hd).
    cbn [String.length cmp_from].
    destruct a as [|c a].
    + unfold byte_at. cbn [String.get cstr].
      destruct (Z.eqb_spec (0 - Z.of_N (N_of_ascii d)) 0); [lia|].
      apply Z.compare_lt_iff. lia.
    + cbn [cstr]. destruct (Ascii.eqb c Ascii.zero) eqn:Hc.
      * apply Ascii.eqb_eq in Hc. subst c.
        unfold byte_at. cbn [String.get String.compare].
        destruct (Z.eqb_spec (Z.of_N (N_of_ascii Ascii.zero) - Z.of_N (N_of_ascii d)) 0)
          as [He|He]; [cbn in He; lia|].
        apply Z.compare_lt_iff. cbn. lia.
      * apply Ascii.eqb_neq in Hc.
        unfold byte_at. cbn [String.get String.compare].
        unfold Ascii.compare.
        destruct (N.compare_spec (N_of_ascii c) (N_of_ascii d)) as [Heq|Hlt|Hgt].
        -- rewrite Heq, Z.sub_diag, Z.eqb_refl, cmp_from_shift. apply IH; assumption.
        -- destruct (Z.eqb_spec (Z.of_N (N_of_ascii c) - Z.of_N (N_of_ascii d)) 0); [lia|].
           apply Z.compare_lt_iff. lia.
        -- destruct (Z.eqb_spec (Z.of_N (N_of_ascii c) - Z.of_N (N_of_ascii d)) 0); [lia|].
           apply Z.compare_gt_iff. lia.
Qed.

Lemma cstr_idem (x : string) : cstr (cstr x) = cstr x.
Proof.
  induction x as [|c x IH]; [reflexivity|]. cbn [cstr].
  destruct (Ascii.eqb c Ascii.zero) eqn:Hc; [reflexivity|].
  cbn [cstr]. rewrite Hc, IH. reflexivity.
Qed.

Lemma substring_full (s : string) : substring 0 (String.length s) s = s.
Proof. induction s as [|c s IH]; [reflexivity|]. cbn. rewrite IH. reflexivity. Qed.

Lemma string_compare_refl (x : string) : String.compare x x = Eq.
Proof.
  pose proof (String.compare_antisym x x) as H.
  destruct (String.compare x x); simpl in H; congruence.
Qed.

Lemma div2_add_S (n : nat) : (Nat.div2 n + Nat.div2 (S n))%nat = n.
Proof.
  induction n as [|n IH]; [reflexivity|].
  change (Nat.div2 (S (S n))) with (S (Nat.div2 n)). lia.
Qed.

(** ** The binary search of [stringToInstId] *)
Section Search.
Variable tbl : list InstInfo.
Variable s : string.
Variable len : nat.
Variable t : nat.
Hypothesis Ht : inst_name tbl t = s.

(** On a strictly sorted range containing the entry [t] named [s], the
    search returns [t], given [lim <= fuel]. *)
Lemma search_loop_finds :
  forall fuel base lim,
  (lim <= fuel)%nat -> (base <= t < base + lim)%nat ->
  (forall i, (base <= i < base + lim)%nat ->
     Z.compare (cmpInstName (name_at tbl i) s len) 0 = String.compare (inst_name tbl i) s) ->
  (forall i j, (base <= i < j)%nat -> (j < base + lim)%nat ->
     String.compare (inst_name tbl i) (inst_name tbl j) = Lt) ->
  search_loop tbl fuel s len base lim = t.
Proof.
  induction fuel as [|fuel IH]; intros base lim Hfuel Hrange Hcmp Hsorted; [lia|].
  cbn [search_loop].
  destruct (Nat.eqb_spec lim 0) as [->|Hlim]; [lia|].
  pose proof (div2_add_S (lim - 1)) as Hhalf.
  replace (S (lim - 1)) with lim in Hhalf by lia.
  set (h := Nat.div2 lim) in *. set (h1 := Nat.div2 (lim - 1)) in *.
  clearbody h h1.
  assert (Hc : Z.compare (cmpInstName (name_at tbl (base + h)) s len) 0 =
               String.compare (inst_name tbl (base + h)) s)
    by (apply Hcmp; lia).
  destruct (String.compare (inst_name tbl (base + h)) s) eqn:Hcs.
  - (* found: the names at [cur] and [t] are equal, so [cur = t] *)
    apply Z.compare_eq_iff in Hc. rewrite Hc. cbn.
    apply String.compare_eq_iff in Hcs.
    destruct (Nat.lt_total (base + h) t) as [Hlt|[Heq|Hgt]];
      [ | exact Heq | ].
    + specialize (Hsorted (base + h)%nat t ltac:(lia) ltac:(lia)).
      rewrite Hcs, Ht, string_compare_refl in Hsorted. discriminate.
    + specialize (Hsorted t (base + h)%nat ltac:(lia) ltac:(lia)).
      rewrite Hcs, Ht, string_compare_refl in Hsorted. discriminate.
  - (* the name at [cur] is smaller: continue right of [cur] *)
    apply Z.compare_lt_iff in Hc. rewrite (proj2 (Z.ltb_lt _ _) Hc).
    assert (Hlt : (base + h < t)%nat).
    { destruct (Nat.lt_total (base + h) t) as [H|[H|H]]; [exact H| |].
      - rewrite H, Ht, string_compare_refl in Hcs. discriminate.
      - specialize (Hsorted t (base + h)%nat ltac:(lia) ltac:(lia)). rewrite Ht in Hsorted.
        rewrite String.compare_antisym, Hsorted in Hcs. discriminate. }
    apply IH.
    + lia.
    + lia.
    + intros i Hi. apply Hcmp. lia.
    + intros i j Hij Hj. apply Hsorted; lia.
  - (* the name at [cur] is larger: continue left of [cur] *)
    apply Z.compare_gt_iff in Hc.
    rewrite (proj2 (Z.ltb_ge _ _) (Z.lt_le_incl _ _ Hc)), (proj2 (Z.ltb_lt _ _) Hc).
    assert (Hgt : (t < base + h)%nat).
    { destruct (Nat.lt_total (base + h) t) as [H|[H|H]]; [ | |exact H].
      - specialize (Hsorted (base + h)%nat t ltac:(lia) ltac:(lia)). rewrite Ht, Hcs in Hsorted.
        discriminate.
      - rewrite H, Ht, string_compare_refl in Hcs. discriminate. }
    apply IH.
    + lia.
    + lia.
    + intros i Hi. apply Hcmp. lia.
    + intros i j Hij Hj. apply Hsorted; lia.
Qed.

End Search.

(** ** Round trip of instruction names *)

Lemma stringToInstId_finds (tbl : list InstInfo) (idx : list InstNameIndex)
    (kMaxNameSize : N) (Hwf : db_wf tbl idx kMaxNameSize) (arch : Arch) (id : InstId)
    (Hid : (1 <= id < length tbl)%nat) :
  stringToInstId tbl idx kMaxNameSize arch (Some (inst_name tbl id))
    (N.of_nat (String.length (inst_name tbl id))) = id.
Proof.
  destruct Hwf as [Hmax [Hent Hsorted]].
  pose proof (Hent id Hid) as Hid'. cbv zeta in Hid'.
  destruct Hid' as (Hlen & Hletter & Hst & Hend).
  set (s := inst_name tbl id) in *.
  assert (Hnul : cstr s = s) by apply cstr_idem.
  assert (Hne : String.length s <> 0%nat).
  { destruct s; [unfold byte_at in Hletter; cbn in Hletter; lia | discriminate]. }
  unfold stringToInstId.
  rewrite (proj2 (N.eqb_neq (N.of_nat (String.length s)) SIZE_MAX)) by lia.
  cbv zeta.
  rewrite (proj2 (N.eqb_neq (N.of_nat (String.length s)) 0)) by lia.
  rewrite (proj2 (N.ltb_ge kMaxNameSize (N.of_nat (String.length s)))) by lia.
  cbn [orb].
  assert (Hpre : (char_to_u32 (byte_at s 0) - 97) mod 2 ^ 32 = byte_at s 0 - 97).
  { unfold char_to_u32. rewrite (proj2 (Z.ltb_lt _ _)) by lia. apply Z.mod_small. lia. }
  rewrite Hpre, (proj2 (Z.ltb_ge _ _)) by lia.
  set (p := Z.to_nat (byte_at s 0 - 97)) in *.
  set (ix := nth p idx (mkInstNameIndex 0 0)) in *.
  rewrite (proj2 (Nat.eqb_neq _ _)) by lia.
  rewrite Nat2N.id.
  apply (search_loop_finds tbl s (String.length s) id eq_refl).
  - lia.
  - lia.
  - intros i Hi. apply cmpInstName_compare. exact Hnul.
  - intros i j Hij Hj.
    specialize (Hsorted p i j ltac:(unfold p; lia)). cbv zeta in Hsorted.
    fold ix in Hsorted. apply Hsorted; lia.
Qed.

Lemma stringToInstId_SIZE_MAX (tbl : list InstInfo) (idx : list InstNameIndex)
    (kMaxNameSize : N) (arch : Arch) (str : string) :
  strlen str <> SIZE_MAX ->
  stringToInstId tbl idx kMaxNameSize arch (Some str) SIZE_MAX =
  stringToInstId tbl idx kMaxNameSize arch (Some str) (strlen str).
Proof.
  intros H. unfold stringToInstId.
  rewrite N.eqb_refl, (proj2 (N.eqb_neq _ _) H). reflexivity.
Qed.

(** ** Read/write information *)

Lemma replace_nth_length {A} (i : nat) (x : A) (l : list A) :
  length (replace_nth i x l) = length l.
Proof.
  revert i. induction l as [|y l IH]; intros [|i]; cbn; try rewrite IH; reflexivity.
Qed.

Lemma rw_loop_some (body : nat -> OpRWInfo -> Operand -> OpRWInfo)
    (operands : list Operand) :
  forall n i ops, (i + n <= length ops)%nat ->
  exists ops', rw_loop body operands i n ops = Some ops'.
Proof.
  induction n as [|n IH]; intros i ops H; cbn [rw_loop]; [eauto|].
  destruct (nth_error ops i) eqn:E.
  - apply IH. rewrite replace_nth_length. lia.
  - apply nth_error_None in E. lia.
Qed.

Lemma rw_loop_overrun (body : nat -> OpRWInfo -> Operand -> OpRWInfo)
    (operands : list Operand) :
  forall n i ops, (i <= length ops < i + n)%nat -> rw_loop body operands i n ops = None.
Proof.
  induction n as [|n IH]; intros i ops H; cbn [rw_loop]; [lia|].
  destruct (nth_error ops i) eqn:E; [|reflexivity].
  assert (i < length ops)%nat by (apply nth_error_Some; congruence).
  apply IH. rewrite replace_nth_length. lia.
Qed.

(** A defined instruction with more operands than the [kMaxOpCount]
    entries of [InstRWInfo::_operands] makes [queryRWInfo] write past that
    array. *)
Lemma queryRWInfo_opCount_overrun (tbl : list InstInfo) (arch : Arch) (inst : BaseInst)
    (operands : list Operand) (opCount : nat) (out : InstRWInfo) :
  isDefinedId tbl (inst_id inst) = true ->
  length (_operands out) = kMaxOpCount -> (kMaxOpCount < opCount)%nat ->
  queryRWInfo tbl arch inst operands opCount out = None.
Proof.
  intros Hd Hops Hcount. unfold queryRWInfo. rewrite Hd. cbn [negb].
  destruct (nth_error instRWInfoData _); [|reflexivity]. cbv zeta.
  destruct (_ && _); rewrite rw_loop_overrun by lia; reflexivity.
Qed.

(** C10: for an undefined id [queryRWInfo] returns
    [kErrorInvalidInstruction] and leaves [*out] as it was; for a defined id
    it returns [kErrorOk] with [_opCount] equal to [opCount]. The output holds
    [kMaxOpCount] operand entries, [opCount] is at most [kMaxOpCount], and the
    database's read/write indices address [instRWInfoData]. *)
Theorem queryRWInfo_status_opCount (tbl : list InstInfo) (arch : Arch) (inst : BaseInst)
    (operands : list Operand) (opCount : nat) (out : InstRWInfo)
    (Hrw : rw_indices_ok tbl = true)
    (Hops : length (_operands out) = kMaxOpCount)
    (Hcount : (opCount <= kMaxOpCount)%nat) :
  if isDefinedId tbl (inst_id inst)
  then exists out', queryRWInfo tbl arch inst operands opCount out = Some (kErrorOk, out') /\
                    _opCount out' = Z.of_nat opCount
  else queryRWInfo tbl arch inst operands opCount out = Some (kErrorInvalidInstruction, out).
Proof.
  unfold queryRWInfo.
  destruct (isDefinedId tbl (inst_id inst)) eqn:Hd; cbn [negb]; [|reflexivity].
  apply Nat.ltb_lt in Hd.
  destruct (nth_error instRWInfoData _) eqn:E.
  2:{ apply nth_error_None in E. unfold rw_indices_ok in Hrw.
       rewrite forallb_forall in Hrw.
       specialize (Hrw (infoById tbl (inst_id inst)) (nth_In _ _ Hd)).
       apply Nat.ltb_lt in Hrw. lia. }
  cbv zeta.
  destruct (_ && _);
    [ destruct (rw_loop_some (rw_body_consecutive l opCount) operands opCount 0
                  (_operands out) ltac:(unfold kMaxOpCount in *; lia)) as [ops Hops']
    | destruct (rw_loop_some (rw_body_default l) operands opCount 0
                  (_operands out) ltac:(unfold kMaxOpCount in *; lia)) as [ops Hops'] ];
    rewrite Hops'; eexists; (split; [reflexivity|]); cbn;
    apply Z.mod_small; unfold kMaxOpCount in *; lia.
Qed.

(** ** The boolean database checks *)

Lemma db_wfb_sound (tbl : list InstInfo) (idx : list InstNameIndex) (kMaxNameSize : N) :
  db_wfb tbl idx kMaxNameSize = true -> db_wf tbl idx kMaxNameSize.
Proof.
  unfold db_wfb, db_wf. intros H.
  apply andb_true_iff in H as [H Hsort]. apply andb_true_iff in H as [Hmax Hent].
  split; [apply N.ltb_lt; exact Hmax|]. split.
  - intros id Hid. rewrite forallb_forall in Hent.
    specialize (Hent id ltac:(apply in_seq; lia)). cbv zeta in Hent |- *.
    repeat rewrite andb_true_iff in Hent.
    destruct Hent as [[[[[[H2 H3] H4] H5] H6] H7] H8].
    apply N.leb_le in H2.
    apply Z.leb_le in H3. apply Z.leb_le in H4.
    apply Nat.leb_le in H5. apply Nat.leb_le in H6. apply Nat.leb_le in H8.
    apply Nat.ltb_lt in H7.
    repeat split; assumption.
  - intros p i j Hp. cbv zeta. intros Hij Hj.
    rewrite forallb_forall in Hsort.
    specialize (Hsort p ltac:(apply in_seq; lia)). cbv zeta in Hsort.
    rewrite forallb_forall in Hsort. specialize (Hsort i ltac:(apply in_seq; lia)).
    rewrite forallb_forall in Hsort. specialize (Hsort j ltac:(apply in_seq; lia)).
    unfold String.ltb in Hsort. destruct (String.compare _ _); congruence.
Qed.

(** ** What a successful name lookup returns *)

Lemma byte_zero_ascii (c : ascii) : Z.of_N (N_of_ascii c) = 0 -> c = Ascii.zero.
Proof.
  intros H. rewrite <- (ascii_N_embedding c).
  replace (N_of_ascii c) with 0%N by lia. reflexivity.
Qed.

Lemma byte_inj_ascii (c d : ascii) :
  Z.of_N (N_of_ascii c) = Z.of_N (N_of_ascii d) -> c = d.
Proof.
  intros H. rewrite <- (ascii_N_embedding c), <- (ascii_N_embedding d).
  f_equal. lia.
Qed.

(** [cmpInstName] returns zero only when the first [n] bytes agree and the
    table name ends right after them. *)
Lemma cmp_from_zero (a b : string) :
  forall n i, cmp_from a b i n = 0 ->
  (forall k, (k < n)%nat -> byte_at a (i + k) = byte_at b (i + k)) /\
  byte_at a (i + n) = 0.
Proof.
  induction n as [|n IH]; intros i H; cbn [cmp_from] in H.
  - split; [intros; lia|]. rewrite Nat.add_0_r. exact H.
  - destruct (Z.eqb_spec (byte_at a i - byte_at b i) 0) as [Heq|Hne]; [|lia].
    destruct (IH (S i) H) as [Hk Hend]. split.
    + intros [|k] Hk'.
      * rewrite Nat.add_0_r. lia.
      * replace (i + S k)%nat with (S i + k)%nat by lia. apply Hk. lia.
    + replace (i + S n)%nat with (S i + n)%nat by lia. exact Hend.
Qed.

(** [cmpInstName] reads only the first [n] bytes of its second argument. *)
Lemma cmp_from_ext (a b b' : string) :
  forall n i, (forall k, (k < n)%nat -> byte_at b (i + k) = byte_at b' (i + k)) ->
  cmp_from a b i n = cmp_from a b' i n.
Proof.
  induction n as [|n IH]; intros i H; cbn [cmp_from]; [reflexivity|].
  pose proof (H 0%nat ltac:(lia)) as H0. rewrite Nat.add_0_r in H0.
  rewrite H0, IH; [reflexivity|].
  intros k Hk. replace (S i + k)%nat with (i + S k)%nat by lia. apply H. lia.
Qed.

(** A name that agrees with the first [n] bytes of [b] and ends there is
    the C string of those [n] bytes. *)
Lemma cstr_prefix :
  forall n (a b : string),
  (forall k, (k < n)%nat -> byte_at a k = byte_at b k) -> byte_at a n = 0 ->
  cstr a = cstr (substring 0 n b).
Proof.
  induction n as [|n IH]; intros a b Hk Hend.
  - replace (substring 0 0 b) with EmptyString by (destruct b; reflexivity).
    destruct a as [|c a]; [reflexivity|].
    unfold byte_at in Hend. cbn in Hend. apply byte_zero_ascii in Hend. subst c.
    reflexivity.
  - pose proof (Hk 0%nat ltac:(lia)) as H0. unfold byte_at in H0. cbn in H0.
    destruct a as [|c a], b as [|d b]; cbn in H0.
    + reflexivity.
    + symmetry in H0. apply byte_zero_ascii in H0. subst d. reflexivity.
    + apply byte_zero_ascii in H0. subst c. reflexivity.
    + apply byte_inj_ascii in H0. subst d. cbn [cstr substring].
      destruct (Ascii.eqb c Ascii.zero); [reflexivity|]. f_equal. apply IH.
      * intros k Hk'. exact (Hk (S k) ltac:(lia)).
      * exact Hend.
Qed.

Lemma search_loop_sound (tbl : list InstInfo) (s : string) (len : nat) :
  forall fuel base lim,
  search_loop tbl fuel s len base lim <> kIdNone ->
  cmpInstName (name_at tbl (search_loop tbl fuel s len base lim)) s len = 0.
Proof.
  induction fuel as [|fuel IH]; intros base lim H; cbn [search_loop] in *;
    [contradiction|].
  destruct (Nat.eqb lim 0); [contradiction|].
  destruct (cmpInstName (name_at tbl (base + Nat.div2 lim)) s len <? 0) eqn:H1;
    [apply IH; exact H|].
  destruct (0 <? cmpInstName (name_at tbl (base + Nat.div2 lim)) s len) eqn:H2;
    [apply IH; exact H|].
  apply Z.ltb_ge in H1. apply Z.ltb_ge in H2. lia.
Qed.

Lemma search_loop_ext (tbl : list InstInfo) (s s' : string) (len : nat) :
  (forall a, cmpInstName a s len = cmpInstName a s' len) ->
  forall fuel base lim,
  search_loop tbl fuel s len base lim = search_loop tbl fuel s' len base lim.
Proof.
  intros Hc. induction fuel as [|fuel IH]; intros base lim; cbn [search_loop];
    [reflexivity|].
  rewrite !Hc, !IH. reflexivity.
Qed.

Lemma name_at_overflow (tbl : list InstInfo) (i : nat) :
  (length tbl <= i)%nat -> name_at tbl i = EmptyString.
Proof. intros H. unfold name_at, infoById. rewrite nth_overflow by exact H. reflexivity. Qed.

(** What [stringToInstId] returns when it finds a name. *)
Lemma stringToInstId_found_spec
    (tbl : list InstInfo) (idx : list InstNameIndex) (kMaxNameSize : N)
    (arch : Arch) (str : string) (len : N) (output : string) :
  let eff := if N.eqb len SIZE_MAX then strlen str else len in
  let r := stringToInstId tbl idx kMaxNameSize arch (Some str) len in
  r <> kIdNone ->
  isDefinedId tbl r = true /\
  (forall k, (k < N.to_nat eff)%nat -> byte_at (name_at tbl r) k = byte_at str k) /\
  byte_at (name_at tbl r) (N.to_nat eff) = 0 /\
  instIdToString tbl arch r output =
    (kErrorOk, String.append output (cstr (substring 0 (N.to_nat eff) str))).
Proof.
  intros eff r Hr. unfold r, stringToInstId in Hr |- *. cbv zeta in Hr |- *.
  fold eff in Hr |- *.
  destruct (N.eqb eff 0 || N.ltb kMaxNameSize eff) eqn:Hlen; [contradiction|].
  apply orb_false_iff in Hlen as [Hlen0 _]. apply N.eqb_neq in Hlen0.
  destruct (25 <? (char_to_u32 (byte_at str 0) - 97) mod 2 ^ 32) eqn:Hp;
    [contradiction|].
  apply Z.ltb_ge in Hp. apply prefix_small_iff in Hp; [|apply byte_at_range].
  set (ix := nth (Z.to_nat ((char_to_u32 (byte_at str 0) - 97) mod 2 ^ 32)) idx
               (mkInstNameIndex 0 0)) in *.
  destruct (Nat.eqb (index_start ix) 0); [contradiction|].
  set (r0 := search_loop tbl (index_end ix - index_start ix) str (N.to_nat eff)
               (index_start ix) (index_end ix - index_start ix)) in *.
  pose proof (search_loop_sound tbl str (N.to_nat eff) _ _ _ Hr) as Hcmp. fold r0 in Hcmp.
  apply cmp_from_zero in Hcmp as [Hk Hend]. cbn [Nat.add] in Hk, Hend.
  assert (Hdef : isDefinedId tbl r0 = true).
  { apply Nat.ltb_lt. unfold _kIdCount.
    destruct (Nat.lt_ge_cases r0 (length tbl)) as [|Hge]; [assumption|].
    specialize (Hk 0%nat ltac:(lia)). rewrite name_at_overflow in Hk by exact Hge.
    unfold byte_at in Hk at 1. cbn in Hk. lia. }
  split; [exact Hdef|]. split; [exact Hk|]. split; [exact Hend|].
  unfold instIdToString. rewrite Hdef. cbn [negb]. f_equal. f_equal.
  apply cstr_prefix; assumption.
Qed.



(** Whatever the database, an id returned by [stringToInstId(s, len)]
    other than [kIdNone] is defined, the name data at its entry starts with
    the first [len] bytes of [s] ([strlen(s)] when [len == SIZE_MAX])
    followed by a NUL, and [instIdToString] of that id appends the C string
    of those bytes. *)
Theorem stringToInstId_found_matches
    (tbl : list InstInfo) (idx : list InstNameIndex) (kMaxNameSize : N)
    (arch : Arch) (str : string) (len : N) (output : string) :
  let eff := if N.eqb len SIZE_MAX then strlen str else len in
  let r := stringToInstId tbl idx kMaxNameSize arch (Some str) len in
  r <> kIdNone ->
  isDefinedId tbl r = true /\
  (forall k, (k < N.to_nat eff)%nat -> byte_at (name_at tbl r) k = byte_at str k) /\
  byte_at (name_at tbl r) (N.to_nat eff) = 0 /\
  instIdToString tbl arch r output =
    (kErrorOk, String.append output (cstr (substring 0 (N.to_nat eff) str))).
Proof. exact (stringToInstId_found_spec tbl idx kMaxNameSize arch str len output). Qed.

(** With an explicit length, [stringToInstId(s, len)] reads only the first
    [len] characters of [s]: two strings that agree on them get the same
    result. *)
Theorem stringToInstId_reads_prefix
    (tbl : list InstInfo) (idx : list InstNameIndex) (kMaxNameSize : N)
    (arch : Arch) (str str' : string) (len : N)
    (Hlen : len <> SIZE_MAX)
    (Hsame : forall k, (k < N.to_nat len)%nat -> byte_at str k = byte_at str' k) :
  stringToInstId tbl idx kMaxNameSize arch (Some str) len =
  stringToInstId tbl idx kMaxNameSize arch (Some str') len.
Proof.
  unfold stringToInstId. rewrite (proj2 (N.eqb_neq len SIZE_MAX) Hlen). cbv zeta.
  destruct (N.eqb len 0 || N.ltb kMaxNameSize len) eqn:H; [reflexivity|].
  apply orb_false_iff in H as [H0 _]. apply N.eqb_neq in H0.
  rewrite (Hsame 0%nat ltac:(lia)).
  destruct (25 <? _); [reflexivity|].
  destruct (Nat.eqb _ 0); [reflexivity|].
  apply search_loop_ext. intros a. unfold cmpInstName. apply cmp_from_ext.
  exact Hsame.
Qed.

(** ** The operand entries written by [queryRWInfo] *)

Lemma nth_error_replace_nth {A} (l : list A) :
  forall (i k : nat) (x : A),
  nth_error (replace_nth i x l) k =
    if Nat.eqb k i then (if Nat.ltb i (length l) then Some x else None)
    else nth_error l k.
Proof.
  induction l as [|y l IH]; intros i k x.
  - destruct i, k; cbn; try destruct (Nat.eqb _ _); reflexivity.
  - destruct i as [|i], k as [|k]; cbn [replace_nth nth_error length]; try reflexivity.
    rewrite IH. reflexivity.
Qed.

(** The loop writes entry [k] of [_operands], for [i <= k < i + n], from
    the entry it had before and the source operand [k], and nothing else. *)
Lemma rw_loop_spec (body : nat -> OpRWInfo -> Operand -> OpRWInfo)
    (operands : list Operand) :
  forall n i ops ops', rw_loop body operands i n ops = Some ops' ->
  ((i <= length ops)%nat -> (i + n <= length ops)%nat) /\ length ops' = length ops /\
  forall k, nth_error ops' k =
    if Nat.leb i k && Nat.ltb k (i + n)
    then option_map (fun op => body k op (nth k operands OpNone)) (nth_error ops k)
    else nth_error ops k.
Proof.
  induction n as [|n IH]; intros i ops ops' H; cbn [rw_loop] in H.
  - injection H as <-. split; [lia|]. split; [reflexivity|]. intros k.
    destruct (Nat.leb_spec i k), (Nat.ltb_spec k (i + 0)); try lia; reflexivity.
  - destruct (nth_error ops i) as [op|] eqn:Ei; [|discriminate].
    assert (Hi : (i < length ops)%nat) by (apply nth_error_Some; congruence).
    destruct (IH _ _ _ H) as [Hb [Hl Hk]].
    rewrite replace_nth_length in Hb, Hl.
    split; [lia|]. split; [exact Hl|]. intros k. rewrite Hk, !nth_error_replace_nth.
    destruct (Nat.eqb_spec k i) as [->|Hki].
    + rewrite (proj2 (Nat.ltb_lt _ _) Hi), Ei.
      destruct (Nat.leb_spec (S i) i); [lia|].
      destruct (Nat.leb_spec i i), (Nat.ltb_spec i (i + S n)); try lia. reflexivity.
    + destruct (Nat.leb_spec (S i) k), (Nat.ltb_spec k (S i + n)),
        (Nat.leb_spec i k), (Nat.ltb_spec k (i + S n)); try lia; reflexivity.
Qed.

(** The effect of a successful [queryRWInfo] on a defined instruction. *)
Lemma queryRWInfo_spec (tbl : list InstInfo) (arch : Arch) (inst : BaseInst)
    (operands : list Operand) (opCount : nat) (out : InstRWInfo)
    (err : Error) (out' : InstRWInfo) :
  isDefinedId tbl (inst_id inst) = true ->
  queryRWInfo tbl arch inst operands opCount out = Some (err, out') ->
  let info := infoById tbl (inst_id inst) in
  let row := nth (_rwInfoIndex info) instRWInfoData [] in
  let body := if negb (Z.eqb (Z.land (_flags info) kInstFlagConsecutive) 0)
                 && Nat.ltb 2 opCount
              then rw_body_consecutive row opCount else rw_body_default row in
  In row instRWInfoData /\ err = kErrorOk /\
  _instFlags out' = 0 /\ _readFlags out' = 0 /\ _writeFlags out' = 0 /\
  _rmFeature out' = 0 /\ _extraReg out' = OpRWInfo_reset /\
  (opCount <= length (_operands out))%nat /\
  length (_operands out') = length (_operands out) /\
  forall k, nth_error (_operands out') k =
    if Nat.ltb k opCount
    then option_map (fun op => body k op (nth k operands OpNone)) (nth_error (_operands out) k)
    else nth_error (_operands out) k.
Proof.
  intros Hd Hq info row body.
  unfold queryRWInfo in Hq. rewrite Hd in Hq. cbn [negb] in Hq. fold info in Hq.
  destruct (nth_error instRWInfoData (_rwInfoIndex info)) as [rw|] eqn:E;
    [|discriminate].
  assert (Hrow : row = rw) by (apply nth_error_nth; exact E).
  cbv zeta in Hq. unfold body. rewrite Hrow.
  split; [apply nth_error_In with (_rwInfoIndex info); exact E|].
  destruct (negb _ && _);
    destruct (rw_loop _ operands 0 opCount (_operands out)) as [ops|] eqn:Hl;
    try discriminate; injection Hq as <- <-;
    destruct (rw_loop_spec _ _ _ _ _ _ Hl) as [Hb [Hlen Hk]];
    (split; [reflexivity|]); cbn [_instFlags _readFlags _writeFlags _rmFeature
      _extraReg _operands];
    (do 5 (split; [reflexivity|])); (split; [apply Hb; lia|]); (split; [exact Hlen|]);
    exact Hk.
Qed.

(** Every value of [instRWInfoData] is one of [kNone], [kRead], [kWrite]
    and [kRW]. *)
Lemma rw_value_range (row : list Z) (i : nat) :
  In row instRWInfoData -> 0 <= nth i row 0 < 4.
Proof.
  intros Hin.
  assert (H : forallb (fun r => forallb (fun v => (0 <=? v) && (v <? 4)) r)
                instRWInfoData = true) by reflexivity.
  rewrite forallb_forall in H. specialize (H row Hin). rewrite forallb_forall in H.
  destruct (Nat.lt_ge_cases i (length row)) as [Hi|Hi].
  - specialize (H _ (nth_In row 0 Hi)). apply andb_true_iff in H as [H1 H2].
    apply Z.leb_le in H1. apply Z.ltb_lt in H2. lia.
  - rewrite nth_overflow by exact Hi. lia.
Qed.

Lemma rw_value_cases (v : Z) : 0 <= v < 4 -> v = 0 \/ v = 1 \/ v = 2 \/ v = 3.
Proof. lia. Qed.

(** [lsbMask<uint32_t>(n)] of the element sizes is [2^n - 1]. *)
Lemma lsbMask32_elementTypeSize (et : nat) :
  (et < 8)%nat ->
  let sz := nth et elementTypeSize 0 in
  0 <= sz <= 8 /\ lsbMask32 sz = 2 ^ sz - 1.
Proof.
  intros H. do 8 (destruct et as [|et]; [split; [cbn; lia | reflexivity]|]). lia.
Qed.

Ltac rw_cases v :=
  let Hv := fresh "Hv" in
  match goal with H : 0 <= v < 4 |- _ =>
    destruct (rw_value_cases v H) as [Hv|[Hv|[Hv|Hv]]]; rewrite Hv in *
  end.

(** Operand entries [opCount] and above keep their previous contents, and
    the instruction-level members are reset: no instruction flags, no CPU
    read or write flags, no required feature, no extra register. *)
Theorem queryRWInfo_frame (tbl : list InstInfo) (arch : Arch) (inst : BaseInst)
    (operands : list Operand) (opCount : nat) (out : InstRWInfo)
    (err : Error) (out' : InstRWInfo)
    (Hq : queryRWInfo tbl arch inst operands opCount out = Some (err, out')) :
  length (_operands out') = length (_operands out) /\
  (forall k, (opCount <= k)%nat -> nth_error (_operands out') k = nth_error (_operands out) k) /\
  (isDefinedId tbl (inst_id inst) = true ->
   _instFlags out' = 0 /\ _readFlags out' = 0 /\ _writeFlags out' = 0 /\
   _rmFeature out' = 0 /\ _extraReg out' = OpRWInfo_reset).
Proof.
  destruct (isDefinedId tbl (inst_id inst)) eqn:Hd.
  - destruct (queryRWInfo_spec tbl arch inst operands opCount out err out' Hd Hq)
      as (_ & _ & Hf & Hr & Hw & Hm & Hx & _ & Hlen & Hk).
    split; [exact Hlen|]. split; [|intros _; repeat split; assumption].
    intros k Hk'. rewrite Hk. destruct (Nat.ltb_spec k opCount); [lia|reflexivity].
  - unfold queryRWInfo in Hq. rewrite Hd in Hq. injection Hq as <- <-.
    split; [reflexivity|]. split; [reflexivity|]. discriminate.
Qed.

(** An operand that is neither a register nor a memory operand (an
    immediate, a label or none) gets an all-zero entry. *)
Theorem queryRWInfo_other_operand_reset (tbl : list InstInfo) (arch : Arch)
    (inst : BaseInst) (operands : list Operand) (opCount : nat) (out : InstRWInfo)
    (err : Error) (out' : InstRWInfo) (i : nat)
    (Hd : isDefinedId tbl (inst_id inst) = true)
    (Hq : queryRWInfo tbl arch inst operands opCount out = Some (err, out'))
    (Hi : (i < opCount)%nat)
    (Hsrc : Operand_isRegOrMem (nth i operands OpNone) = false) :
  nth_error (_operands out') i = Some OpRWInfo_reset.
Proof.
  destruct (queryRWInfo_spec tbl arch inst operands opCount out err out' Hd Hq)
    as (_ & _ & _ & _ & _ & _ & _ & Hb & _ & Hk).
  rewrite Hk, (proj2 (Nat.ltb_lt _ _) Hi).
  destruct (nth_error (_operands out) i) eqn:E;
    [|apply nth_error_None in E; lia].
  cbn [option_map]. f_equal.
  destruct (_ && _); unfold rw_body_consecutive, rw_body_default; rewrite Hsrc;
    reflexivity.
Qed.

(** A memory operand is marked as reading its base register exactly when
    it has a base, as reading its index register exactly when it has an
    index, and as writing the index register exactly when it has an index
    and uses pre- or post-indexed addressing. *)
Theorem queryRWInfo_mem_operand (tbl : list InstInfo) (arch : Arch)
    (inst : BaseInst) (operands : list Operand) (opCount : nat) (out : InstRWInfo)
    (err : Error) (out' : InstRWInfo) (i : nat) (hasBase hasIndex isPreOrPost : bool)
    (Hd : isDefinedId tbl (inst_id inst) = true)
    (Hq : queryRWInfo tbl arch inst operands opCount out = Some (err, out'))
    (Hi : (i < opCount)%nat)
    (Hsrc : nth i operands OpNone = OpMem hasBase hasIndex isPreOrPost) :
  exists op', nth_error (_operands out') i = Some op' /\
    OpRWInfo_hasOpFlag op' OpRWFlags_kMemBaseRead = hasBase /\
    OpRWInfo_hasOpFlag op' OpRWFlags_kMemIndexRead = hasIndex /\
    OpRWInfo_hasOpFlag op' OpRWFlags_kMemIndexWrite = hasIndex && isPreOrPost /\
    _physId op' = BaseReg_kIdBad /\ _extendByteMask op' = 0.
Proof.
  destruct (queryRWInfo_spec tbl arch inst operands opCount out err out' Hd Hq)
    as (Hin & _ & _ & _ & _ & _ & _ & Hb & _ & Hk).
  set (row := nth _ instRWInfoData []) in *. clearbody row.
  rewrite Hk, (proj2 (Nat.ltb_lt _ _) Hi).
  destruct (nth_error (_operands out) i) as [op|] eqn:E;
    [|apply nth_error_None in E; lia].
  cbn [option_map]. eexists. split; [reflexivity|].
  pose proof (rw_value_range row 0 Hin) as H0.
  pose proof (rw_value_range row 1 Hin) as H1.
  pose proof (rw_value_range row i Hin) as H2.
  destruct (_ && _); unfold rw_body_consecutive, rw_body_default; rewrite Hsrc;
    cbn [Operand_isRegOrMem negb].
  - destruct (Nat.ltb i (opCount - 1)).
    + rw_cases (nth 0 row 0); destruct hasBase, hasIndex, isPreOrPost; repeat split.
    + rw_cases (nth 1 row 0); destruct hasBase, hasIndex, isPreOrPost; repeat split.
  - rw_cases (nth i row 0); destruct hasBase, hasIndex, isPreOrPost; repeat split.
Qed.

Lemma rw_common_spec (op : OpRWInfo) (v : Z) : 0 <= v < 4 ->
  _opFlags (rw_common op v) = v /\ _physId (rw_common op v) = BaseReg_kIdBad /\
  _rmSize (rw_common op v) = 0 /\ _extendByteMask (rw_common op v) = 0 /\
  _readByteMask (rw_common op v) =
    (if OpRWInfo_isRead (rw_common op v) then u64_max else 0) /\
  _writeByteMask (rw_common op v) =
    (if OpRWInfo_isWrite (rw_common op v) then u64_max else 0).
Proof. intros H. destruct (rw_value_cases v H) as [-> | [-> | [-> | ->]]]; repeat split. Qed.

Lemma setByteMasks_fields (op : OpRWInfo) (r w : Z) :
  _opFlags (setByteMasks op r w) = _opFlags op /\
  _readByteMask (setByteMasks op r w) = r /\ _writeByteMask (setByteMasks op r w) = w /\
  OpRWInfo_isRead (setByteMasks op r w) = OpRWInfo_isRead op /\
  OpRWInfo_isWrite (setByteMasks op r w) = OpRWInfo_isWrite op.
Proof. repeat split. Qed.

Lemma land_u64_max_small (a : Z) : 0 <= a < 2 ^ 64 -> Z.land u64_max a = a.
Proof.
  intros H. replace u64_max with (Z.ones 64) by reflexivity.
  rewrite Z.land_comm, Z.land_ones by lia. apply Z.mod_small. exact H.
Qed.

(** The access mask of an element [ei] of an element type [et]. *)
Lemma accessMask_eq (et ei : nat) : (et < 8)%nat ->
  Z.land (Z.shiftl (lsbMask32 (nth et elementTypeSize 0))
                   (Z.of_nat ei * nth et elementTypeSize 0)) u64_max =
  ((2 ^ nth et elementTypeSize 0 - 1) * 2 ^ (Z.of_nat ei * nth et elementTypeSize 0))
    mod 2 ^ 64.
Proof.
  intros Het. destruct (lsbMask32_elementTypeSize et Het) as [Hsz Hm].
  rewrite Hm, Z.shiftl_mul_pow2 by lia.
  replace u64_max with (Z.ones 64) by reflexivity.
  apply Z.land_ones. lia.
Qed.

(** Outside the consecutive-registers case, a register operand without an
    element index gets the flags of its position in the instruction's
    [instRWInfoData] row, no physical id, and a read (write) byte mask
    covering all 64 bits exactly when it is read (written). *)
Theorem queryRWInfo_default_reg (tbl : list InstInfo) (arch : Arch)
    (inst : BaseInst) (operands : list Operand) (opCount : nat) (out : InstRWInfo)
    (err : Error) (out' : InstRWInfo) (i : nat) (sig rid : Z) (et ei : nat)
    (Hd : isDefinedId tbl (inst_id inst) = true)
    (Hq : queryRWInfo tbl arch inst operands opCount out = Some (err, out'))
    (Hpath : Z.land (_flags (infoById tbl (inst_id inst))) kInstFlagConsecutive = 0 \/
             (opCount <= 2)%nat)
    (Hi : (i < opCount)%nat)
    (Hsrc : nth i operands OpNone = OpReg sig rid false et ei) :
  exists op', nth_error (_operands out') i = Some op' /\
    _opFlags op' = nth i (nth (_rwInfoIndex (infoById tbl (inst_id inst)))
                              instRWInfoData []) 0 /\
    _physId op' = BaseReg_kIdBad /\ _rmSize op' = 0 /\
    _readByteMask op' = (if OpRWInfo_isRead op' then u64_max else 0) /\
    _writeByteMask op' = (if OpRWInfo_isWrite op' then u64_max else 0) /\
    _extendByteMask op' = 0.
Proof.
  destruct (queryRWInfo_spec tbl arch inst operands opCount out err out' Hd Hq)
    as (Hin & _ & _ & _ & _ & _ & _ & Hb & _ & Hk).
  set (row := nth _ instRWInfoData []) in *. clearbody row.
  rewrite Hk, (proj2 (Nat.ltb_lt _ _) Hi).
  destruct (nth_error (_operands out) i) as [op|] eqn:E;
    [|apply nth_error_None in E; lia].
  cbn [option_map]. eexists. split; [reflexivity|].
  assert (Hc : negb (Z.eqb (Z.land (_flags (infoById tbl (inst_id inst)))
                                   kInstFlagConsecutive) 0) && Nat.ltb 2 opCount = false).
  { destruct Hpath as [H|H]; [rewrite H; reflexivity|].
    apply andb_false_iff. right. apply Nat.ltb_ge. lia. }
  rewrite Hc. unfold rw_body_default. rewrite Hsrc. cbn [Operand_isRegOrMem negb].
  destruct (rw_common_spec op (nth i row 0) (rw_value_range row i Hin))
    as (Hf & Hp & Hs & He & Hr & Hw).
  repeat split; assumption.
Qed.


(** In the consecutive-registers case (an instruction flagged
    [kInstFlagConsecutive] with more than two operands), every register
    operand but the last gets the flags of position 0 of the row and the
    last one those of position 1; the first register records the number of
    registers that follow it, every later register is marked
    [kConsecutive], and the byte masks cover all 64 bits for each access. *)
Theorem queryRWInfo_consecutive_regs (tbl : list InstInfo) (arch : Arch)
    (inst : BaseInst) (operands : list Operand) (opCount : nat) (out : InstRWInfo)
    (err : Error) (out' : InstRWInfo) (i : nat) (sig rid : Z) (hei : bool) (et ei : nat)
    (Hd : isDefinedId tbl (inst_id inst) = true)
    (Hq : queryRWInfo tbl arch inst operands opCount out = Some (err, out'))
    (Hpath : Z.land (_flags (infoById tbl (inst_id inst))) kInstFlagConsecutive <> 0)
    (Hn : (2 < opCount)%nat)
    (Hi : (i < opCount)%nat)
    (Hsrc : nth i operands OpNone = OpReg sig rid hei et ei) :
  let row := nth (_rwInfoIndex (infoById tbl (inst_id inst))) instRWInfoData [] in
  let v := if Nat.ltb i (opCount - 1) then nth 0 row 0 else nth 1 row 0 in
  exists op', nth_error (_operands out') i = Some op' /\
    _opFlags op' = (if Nat.eqb i 0 then v else Z.lor v OpRWFlags_kConsecutive) /\
    (i = 0%nat -> _consecutiveLeadCount op' = Z.of_nat (opCount - 1) mod 256) /\
    _readByteMask op' = (if OpRWInfo_isRead op' then u64_max else 0) /\
    _writeByteMask op' = (if OpRWInfo_isWrite op' then u64_max else 0).
Proof.
  cbv zeta.
  destruct (queryRWInfo_spec tbl arch inst operands opCount out err out' Hd Hq)
    as (Hin & _ & _ & _ & _ & _ & _ & Hb & _ & Hk).
  set (row := nth _ instRWInfoData []) in *. clearbody row.
  rewrite Hk, (proj2 (Nat.ltb_lt _ _) Hi).
  destruct (nth_error (_operands out) i) as [op|] eqn:E;
    [|apply nth_error_None in E; lia].
  cbn [option_map]. eexists. split; [reflexivity|].
  assert (Hc : negb (Z.eqb (Z.land (_flags (infoById tbl (inst_id inst)))
                                   kInstFlagConsecutive) 0) && Nat.ltb 2 opCount = true).
  { apply andb_true_iff. split; [apply negb_true_iff, Z.eqb_neq; exact Hpath|].
    apply Nat.ltb_lt. exact Hn. }
  rewrite Hc. unfold rw_body_consecutive. rewrite Hsrc. cbn [Operand_isRegOrMem negb].
  pose proof (rw_value_range row 0 Hin) as H0.
  pose proof (rw_value_range row 1 Hin) as H1.
  destruct (Nat.ltb i (opCount - 1)); destruct (Nat.eqb_spec i 0) as [->|Hi0];
    [ rw_cases (nth 0 row 0) | rw_cases (nth 0 row 0)
    | rw_cases (nth 1 row 0) | rw_cases (nth 1 row 0) ];
    repeat split; intros; try lia; reflexivity.
Qed.

(** Every operand entry [queryRWInfo] writes is consistent: it has a
    non-empty read (write) byte mask only if it is marked as read
    (written), and no extend byte mask. *)
Theorem queryRWInfo_masks_follow_flags (tbl : list InstInfo) (arch : Arch)
    (inst : BaseInst) (operands : list Operand) (opCount : nat) (out : InstRWInfo)
    (err : Error) (out' : InstRWInfo) (i : nat) (op' : OpRWInfo)
    (Hd : isDefinedId tbl (inst_id inst) = true)
    (Hq : queryRWInfo tbl arch inst operands opCount out = Some (err, out'))
    (Hi : (i < opCount)%nat)
    (Hop : nth_error (_operands out') i = Some op') :
  (_readByteMask op' <> 0 -> OpRWInfo_isRead op' = true) /\
  (_writeByteMask op' <> 0 -> OpRWInfo_isWrite op' = true) /\
  _extendByteMask op' = 0.
Proof.
  destruct (queryRWInfo_spec tbl arch inst operands opCount out err out' Hd Hq)
    as (Hin & _ & _ & _ & _ & _ & _ & Hb & _ & Hk).
  set (row := nth _ instRWInfoData []) in *. clearbody row.
  rewrite Hk, (proj2 (Nat.ltb_lt _ _) Hi) in Hop.
  destruct (nth_error (_operands out) i) as [op|] eqn:E; [|discriminate].
  cbn [option_map] in Hop. injection Hop as <-.
  pose proof (rw_value_range row 0 Hin) as H0.
  pose proof (rw_value_range row 1 Hin) as H1.
  pose proof (rw_value_range row i Hin) as H2.
  destruct (_ && _); unfold rw_body_consecutive, rw_body_default;
    destruct (nth i operands OpNone) as [|sig rid hei et ei|hb hx hp|imm|lbl];
    cbn [Operand_isRegOrMem negb];
    [ repeat split; cbn; intros; congruence
    | destruct (Nat.ltb i (opCount - 1)), (Nat.eqb i 0);
        [ rw_cases (nth 0 row 0) | rw_cases (nth 0 row 0)
        | rw_cases (nth 1 row 0) | rw_cases (nth 1 row 0) ];
        repeat split; cbn; intros; congruence
    | destruct (Nat.ltb i (opCount - 1));
        [ rw_cases (nth 0 row 0) | rw_cases (nth 1 row 0) ];
        destruct hb, hx, hp; repeat split; cbn; intros; congruence
    | repeat split; cbn; intros; congruence
    | repeat split; cbn; intros; congruence
    | repeat split; cbn; intros; congruence
    | rw_cases (nth i row 0); destruct hei; repeat split; cbn; intros; congruence
    | rw_cases (nth i row 0); destruct hb, hx, hp; repeat split; cbn; intros; congruence
    | repeat split; cbn; intros; congruence
    | repeat split; cbn; intros; congruence ].
Qed.

End A64InstApiFacts.

(** * Instances of the emitter properties *)
Module EmitterWitnesses.
Import Emitter.



End EmitterWitnesses.

(** * Instances of the claims on the sample database *)
Module Witnesses.
Import A64InstApi A64InstApiFacts.



Lemma rejects_witness :
  (Some "Add"%string = None \/
   exists str, Some "Add"%string = Some str /\
     let eff := if N.eqb 3 SIZE_MAX then strlen str else 3%N in
     (eff = 0%N \/ (SampleDB.kMaxNameSize < eff)%N \/ ~ (97 <= byte_at str 0 <= 122))) /\
  stringToInstId SampleDB.table SampleDB.nameIndex SampleDB.kMaxNameSize 0%N
    (Some "Add"%string) 3%N = kIdNone.
Proof.
  assert (H : Some "Add"%string = None \/
     exists str, Some "Add"%string = Some str /\
       let eff := if N.eqb 3 SIZE_MAX then strlen str else 3%N in
       (eff = 0%N \/ (SampleDB.kMaxNameSize < eff)%N \/ ~ (97 <= byte_at str 0 <= 122))).
  { right. exists "Add"%string. split; [reflexivity|].
    right. right. unfold byte_at. cbn. lia. }
  exact (conj H (stringToInstId_rejects SampleDB.table SampleDB.nameIndex
                   SampleDB.kMaxNameSize 0%N (Some "Add"%string) 3%N H)).
Defined.

Lemma queryRWInfo_witness :
  rw_indices_ok SampleDB.table = true /\
  length (_operands SampleDB.emptyRWInfo) = kMaxOpCount /\
  (4 <= kMaxOpCount)%nat /\
  (if isDefinedId SampleDB.table 8%nat
   then exists out', queryRWInfo SampleDB.table 0%N (mkBaseInst 8%nat 0 (mkRegOnly 0 0))
                       SampleDB.ld1_operands 4%nat SampleDB.emptyRWInfo = Some (kErrorOk, out') /\
                     _opCount out' = Z.of_nat 4%nat
   else queryRWInfo SampleDB.table 0%N (mkBaseInst 8%nat 0 (mkRegOnly 0 0))
          SampleDB.ld1_operands 4%nat SampleDB.emptyRWInfo =
        Some (kErrorInvalidInstruction, SampleDB.emptyRWInfo)).
Proof.
  assert (Hrw : rw_indices_ok SampleDB.table = true) by (vm_compute; reflexivity).
  assert (Hops : length (_operands SampleDB.emptyRWInfo) = kMaxOpCount) by reflexivity.
  assert (Hcount : (4 <= kMaxOpCount)%nat) by (unfold kMaxOpCount; lia).
  exact (conj Hrw (conj Hops (conj Hcount
    (queryRWInfo_status_opCount SampleDB.table 0%N (mkBaseInst 8%nat 0 (mkRegOnly 0 0))
       SampleDB.ld1_operands 4%nat SampleDB.emptyRWInfo Hrw Hops Hcount)))).
Defined.


Lemma stringToInstId_found_matches_witness :
  stringToInstId SampleDB.table SampleDB.nameIndex SampleDB.kMaxNameSize 0%N
    (Some "add"%string) 3%N <> kIdNone /\
  (let r := stringToInstId SampleDB.table SampleDB.nameIndex SampleDB.kMaxNameSize 0%N
              (Some "add"%string) 3%N in
   isDefinedId SampleDB.table r = true /\
   (forall k, (k < 3)%nat -> byte_at (name_at SampleDB.table r) k = byte_at "add" k) /\
   byte_at (name_at SampleDB.table r) 3 = 0 /\
   instIdToString SampleDB.table 0%N r "x"%string =
     (kErrorOk, String.append "x" (cstr (substring 0 3 "add")))).
Proof.
  assert (H : stringToInstId SampleDB.table SampleDB.nameIndex SampleDB.kMaxNameSize 0%N
                (Some "add"%string) 3%N <> kIdNone) by (vm_compute; discriminate).
  exact (conj H (stringToInstId_found_matches SampleDB.table SampleDB.nameIndex
                   SampleDB.kMaxNameSize 0%N "add" 3%N "x" H)).
Defined.

Lemma stringToInstId_reads_prefix_witness :
  (3%N <> SIZE_MAX /\
   forall k, (k < N.to_nat 3)%nat -> byte_at "adds" k = byte_at "add" k) /\
  stringToInstId SampleDB.table SampleDB.nameIndex SampleDB.kMaxNameSize 0%N
    (Some "adds"%string) 3%N =
  stringToInstId SampleDB.table SampleDB.nameIndex SampleDB.kMaxNameSize 0%N
    (Some "add"%string) 3%N.
Proof.
  assert (Hlen : 3%N <> SIZE_MAX) by (vm_compute; discriminate).
  assert (Hsame : forall k, (k < N.to_nat 3)%nat -> byte_at "adds" k = byte_at "add" k).
  { intros k Hk. cbn in Hk.
    destruct k as [|[|[|k]]]; [reflexivity | reflexivity | reflexivity | lia]. }
  exact (conj (conj Hlen Hsame)
    (stringToInstId_reads_prefix SampleDB.table SampleDB.nameIndex SampleDB.kMaxNameSize
       0%N "adds" "add" 3%N Hlen Hsame)).
Defined.

Lemma queryRWInfo_frame_witness :
  queryRWInfo SampleDB.table 0%N SampleDB.add_inst SampleDB.add_reg_operands 3
    SampleDB.emptyRWInfo = Some (kErrorOk, SampleDB.add_reg_rw) /\
  (length (_operands SampleDB.add_reg_rw) = length (_operands SampleDB.emptyRWInfo) /\
   (forall k, (3 <= k)%nat ->
      nth_error (_operands SampleDB.add_reg_rw) k = nth_error (_operands SampleDB.emptyRWInfo) k) /\
   (isDefinedId SampleDB.table (inst_id SampleDB.add_inst) = true ->
    _instFlags SampleDB.add_reg_rw = 0 /\ _readFlags SampleDB.add_reg_rw = 0 /\
    _writeFlags SampleDB.add_reg_rw = 0 /\ _rmFeature SampleDB.add_reg_rw = 0 /\
    _extraReg SampleDB.add_reg_rw = OpRWInfo_reset)).
Proof.
  assert (Hq : queryRWInfo SampleDB.table 0%N SampleDB.add_inst SampleDB.add_reg_operands 3
                 SampleDB.emptyRWInfo = Some (kErrorOk, SampleDB.add_reg_rw))
    by (vm_compute; reflexivity).
  exact (conj Hq (queryRWInfo_frame SampleDB.table 0%N SampleDB.add_inst
                    SampleDB.add_reg_operands 3 SampleDB.emptyRWInfo kErrorOk
                    SampleDB.add_reg_rw Hq)).
Defined.

Lemma queryRWInfo_other_operand_reset_witness :
  (isDefinedId SampleDB.table (inst_id SampleDB.add_inst) = true /\
   queryRWInfo SampleDB.table 0%N SampleDB.add_inst SampleDB.add_imm_operands 3
     SampleDB.emptyRWInfo = Some (kErrorOk, SampleDB.add_imm_rw) /\
   (2 < 3)%nat /\
   Operand_isRegOrMem (nth 2 SampleDB.add_imm_operands OpNone) = false) /\
  nth_error (_operands SampleDB.add_imm_rw) 2 = Some OpRWInfo_reset.
Proof.
  assert (Hd : isDefinedId SampleDB.table (inst_id SampleDB.add_inst) = true) by reflexivity.
  assert (Hq : queryRWInfo SampleDB.table 0%N SampleDB.add_inst SampleDB.add_imm_operands 3
                 SampleDB.emptyRWInfo = Some (kErrorOk, SampleDB.add_imm_rw))
    by (vm_compute; reflexivity).
  assert (Hi : (2 < 3)%nat) by lia.
  assert (Hsrc : Operand_isRegOrMem (nth 2 SampleDB.add_imm_operands OpNone) = false)
    by reflexivity.
  exact (conj (conj Hd (conj Hq (conj Hi Hsrc)))
    (queryRWInfo_other_operand_reset SampleDB.table 0%N SampleDB.add_inst
       SampleDB.add_imm_operands 3 SampleDB.emptyRWInfo kErrorOk SampleDB.add_imm_rw 2
       Hd Hq Hi Hsrc)).
Defined.

Lemma queryRWInfo_mem_operand_witness :
  (isDefinedId SampleDB.table (inst_id SampleDB.ld1_inst) = true /\
   queryRWInfo SampleDB.table 0%N SampleDB.ld1_inst SampleDB.ld1_post_operands 4
     SampleDB.emptyRWInfo = Some (kErrorOk, SampleDB.ld1_post_rw) /\
   (3 < 4)%nat /\
   nth 3 SampleDB.ld1_post_operands OpNone = OpMem true true true) /\
  exists op', nth_error (_operands SampleDB.ld1_post_rw) 3 = Some op' /\
    OpRWInfo_hasOpFlag op' OpRWFlags_kMemBaseRead = true /\
    OpRWInfo_hasOpFlag op' OpRWFlags_kMemIndexRead = true /\
    OpRWInfo_hasOpFlag op' OpRWFlags_kMemIndexWrite = (true && true)%bool /\
    _physId op' = BaseReg_kIdBad /\ _extendByteMask op' = 0.
Proof.
  assert (Hd : isDefinedId SampleDB.table (inst_id SampleDB.ld1_inst) = true) by reflexivity.
  assert (Hq : queryRWInfo SampleDB.table 0%N SampleDB.ld1_inst SampleDB.ld1_post_operands 4
                 SampleDB.emptyRWInfo = Some (kErrorOk, SampleDB.ld1_post_rw))
    by (vm_compute; reflexivity).
  assert (Hi : (3 < 4)%nat) by lia.
  assert (Hsrc : nth 3 SampleDB.ld1_post_operands OpNone = OpMem true true true)
    by reflexivity.
  exact (conj (conj Hd (conj Hq (conj Hi Hsrc)))
    (queryRWInfo_mem_operand SampleDB.table 0%N SampleDB.ld1_inst
       SampleDB.ld1_post_operands 4 SampleDB.emptyRWInfo kErrorOk SampleDB.ld1_post_rw 3
       true true true Hd Hq Hi Hsrc)).
Defined.

Lemma queryRWInfo_default_reg_witness :
  (isDefinedId SampleDB.table (inst_id SampleDB.add_inst) = true /\
   queryRWInfo SampleDB.table 0%N SampleDB.add_inst SampleDB.add_reg_operands 3
     SampleDB.emptyRWInfo = Some (kErrorOk, SampleDB.add_reg_rw) /\
   (Z.land (_flags (infoById SampleDB.table (inst_id SampleDB.add_inst))) kInstFlagConsecutive = 0 \/
    (3 <= 2)%nat) /\
   (0 < 3)%nat /\
   nth 0 SampleDB.add_reg_operands OpNone = OpReg 1 0 false 0 0) /\
  exists op', nth_error (_operands SampleDB.add_reg_rw) 0 = Some op' /\
    _opFlags op' = nth 0 (nth (_rwInfoIndex (infoById SampleDB.table (inst_id SampleDB.add_inst)))
                              instRWInfoData []) 0 /\
    _physId op' = BaseReg_kIdBad /\ _rmSize op' = 0 /\
    _readByteMask op' = (if OpRWInfo_isRead op' then u64_max else 0) /\
    _writeByteMask op' = (if OpRWInfo_isWrite op' then u64_max else 0) /\
    _extendByteMask op' = 0.
Proof.
  assert (Hd : isDefinedId SampleDB.table (inst_id SampleDB.add_inst) = true) by reflexivity.
  assert (Hq : queryRWInfo SampleDB.table 0%N SampleDB.add_inst SampleDB.add_reg_operands 3
                 SampleDB.emptyRWInfo = Some (kErrorOk, SampleDB.add_reg_rw))
    by (vm_compute; reflexivity).
  assert (Hpath : Z.land (_flags (infoById SampleDB.table (inst_id SampleDB.add_inst)))
                    kInstFlagConsecutive = 0 \/ (3 <= 2)%nat)
    by (left; vm_compute; reflexivity).
  assert (Hi : (0 < 3)%nat) by lia.
  assert (Hsrc : nth 0 SampleDB.add_reg_operands OpNone = OpReg 1 0 false 0 0)
    by reflexivity.
  exact (conj (conj Hd (conj Hq (conj Hpath (conj Hi Hsrc))))
    (queryRWInfo_default_reg SampleDB.table 0%N SampleDB.add_inst
       SampleDB.add_reg_operands 3 SampleDB.emptyRWInfo kErrorOk SampleDB.add_reg_rw 0
       1 0 0 0 Hd Hq Hpath Hi Hsrc)).
Defined.


Lemma queryRWInfo_consecutive_regs_witness :
  (isDefinedId SampleDB.table (inst_id SampleDB.ld1_inst) = true /\
   queryRWInfo SampleDB.table 0%N SampleDB.ld1_inst SampleDB.ld1_post_operands 4
     SampleDB.emptyRWInfo = Some (kErrorOk, SampleDB.ld1_post_rw) /\
   Z.land (_flags (infoById SampleDB.table (inst_id SampleDB.ld1_inst))) kInstFlagConsecutive <> 0 /\
   (2 < 4)%nat /\ (1 < 4)%nat /\
   nth 1 SampleDB.ld1_post_operands OpNone = OpReg 1 1 false 0 0) /\
  (let row := nth (_rwInfoIndex (infoById SampleDB.table (inst_id SampleDB.ld1_inst)))
                  instRWInfoData [] in
   let v := if Nat.ltb 1 (4 - 1) then nth 0 row 0 else nth 1 row 0 in
   exists op', nth_error (_operands SampleDB.ld1_post_rw) 1 = Some op' /\
     _opFlags op' = (if Nat.eqb 1 0 then v else Z.lor v OpRWFlags_kConsecutive) /\
     (1%nat = 0%nat -> _consecutiveLeadCount op' = Z.of_nat (4 - 1) mod 256) /\
     _readByteMask op' = (if OpRWInfo_isRead op' then u64_max else 0) /\
     _writeByteMask op' = (if OpRWInfo_isWrite op' then u64_max else 0)).
Proof.
  assert (Hd : isDefinedId SampleDB.table (inst_id SampleDB.ld1_inst) = true) by reflexivity.
  assert (Hq : queryRWInfo SampleDB.table 0%N SampleDB.ld1_inst SampleDB.ld1_post_operands 4
                 SampleDB.emptyRWInfo = Some (kErrorOk, SampleDB.ld1_post_rw))
    by (vm_compute; reflexivity).
  assert (Hpath : Z.land (_flags (infoById SampleDB.table (inst_id SampleDB.ld1_inst)))
                    kInstFlagConsecutive <> 0) by (vm_compute; discriminate).
  assert (Hn : (2 < 4)%nat) by lia.
  assert (Hi : (1 < 4)%nat) by lia.
  assert (Hsrc : nth 1 SampleDB.ld1_post_operands OpNone = OpReg 1 1 false 0 0)
    by reflexivity.
  exact (conj (conj Hd (conj Hq (conj Hpath (conj Hn (conj Hi Hsrc)))))
    (queryRWInfo_consecutive_regs SampleDB.table 0%N SampleDB.ld1_inst
       SampleDB.ld1_post_operands 4 SampleDB.emptyRWInfo kErrorOk SampleDB.ld1_post_rw 1
       1 1 false 0 0 Hd Hq Hpath Hn Hi Hsrc)).
Defined.

Lemma queryRWInfo_masks_follow_flags_witness :
  let op' := match nth_error (_operands SampleDB.ld1_lane_rw) 0 with
             | Some o => o | None => OpRWInfo_reset end in
  (isDefinedId SampleDB.table (inst_id SampleDB.ld1_inst) = true /\
   queryRWInfo SampleDB.table 0%N SampleDB.ld1_inst SampleDB.ld1_lane_operands 2
     SampleDB.emptyRWInfo = Some (kErrorOk, SampleDB.ld1_lane_rw) /\
   (0 < 2)%nat /\
   nth_error (_operands SampleDB.ld1_lane_rw) 0 = Some op') /\
  ((_readByteMask op' <> 0 -> OpRWInfo_isRead op' = true) /\
   (_writeByteMask op' <> 0 -> OpRWInfo_isWrite op' = true) /\
   _extendByteMask op' = 0).
Proof.
  intros op'.
  assert (Hd : isDefinedId SampleDB.table (inst_id SampleDB.ld1_inst) = true) by reflexivity.
  assert (Hq : queryRWInfo SampleDB.table 0%N SampleDB.ld1_inst SampleDB.ld1_lane_operands 2
                 SampleDB.emptyRWInfo = Some (kErrorOk, SampleDB.ld1_lane_rw))
    by (vm_compute; reflexivity).
  assert (Hi : (0 < 2)%nat) by lia.
  assert (Hop : nth_error (_operands SampleDB.ld1_lane_rw) 0 = Some op')
    by (vm_compute; reflexivity).
  exact (conj (conj Hd (conj Hq (conj Hi Hop)))
    (queryRWInfo_masks_follow_flags SampleDB.table 0%N SampleDB.ld1_inst
       SampleDB.ld1_lane_operands 2 SampleDB.emptyRWInfo kErrorOk SampleDB.ld1_lane_rw 0 op'
       Hd Hq Hi Hop)).
Defined.

End Witnesses.
